(** * Scanfrog: the game simulation core, embedded and verified

    Source: [internal/game] of luhring/scanfrog (Go).  The embedding follows
    the latest revision of the game logic: [handleKeyPress], [startGame],
    [getObstacleProperties], [generateObstacles], [updateGame],
    [checkCollision], [initializeDecorativeItems] and, from model.go,
    [NewModel], [Update] and [restartGame].

    Conventions.
    - Go [int] is the 64-bit two's complement integer: a [Z] together with
      [GoInt.wrap] applied wherever the source does arithmetic on values
      that are not bounded by a slice length.
    - Go [float64] is IEEE 754 binary64, taken from the library's executable
      specification [SpecFloat] at precision 53 and maximal exponent 1024.
      Every operation is rounded on its own (no fused multiply-add).
    - [time.Now()] is an input: the clock reading, in nanoseconds, is an
      argument of every function that reads the clock.
    - A [tea.Cmd] is data ([Cmd]): what the function asks the event loop to
      do next. *)

From Stdlib Require Import ZArith QArith Qpower Lqa List String Ascii Bool Lia SpecFloat.
Import ListNotations.
Open Scope Z_scope.

(** ** Go's [int] *)

Module GoInt.

Definition min_int : Z := - 2 ^ 63.
Definition max_int : Z := 2 ^ 63 - 1.

Definition in_range (z : Z) : Prop := min_int <= z <= max_int.

(** Two's complement wrap-around of an exact result. *)
Definition wrap (z : Z) : Z := (z + 2 ^ 63) mod 2 ^ 64 - 2 ^ 63.

Definition add (a b : Z) : Z := wrap (a + b).
Definition sub (a b : Z) : Z := wrap (a - b).
Definition mul (a b : Z) : Z := wrap (a * b).
Definition neg (a : Z) : Z := wrap (- a).
(** [/] truncates toward zero, [%] takes the sign of the dividend. *)
Definition quot (a b : Z) : Z := wrap (Z.quot a b).
Definition rem (a b : Z) : Z := Z.rem a b.

End GoInt.

(** ** Go's [float64] *)

Module F64.

Definition prec : Z := 53.
Definition emax : Z := 1024.

Definition float64 : Type := spec_float.

Definition add : float64 -> float64 -> float64 := SFadd prec emax.
Definition mul : float64 -> float64 -> float64 := SFmul prec emax.
Definition sub : float64 -> float64 -> float64 := SFsub prec emax.
Definition div : float64 -> float64 -> float64 := SFdiv prec emax.
Definition abs : float64 -> float64 := SFabs.

(** [float64(n)] for an integer [n]: round to nearest, ties to even. *)
Definition of_int (n : Z) : float64 := binary_normalize prec emax n 0 false.

(** A decimal literal [n/d] of the source, rounded once to binary64. *)
Definition lit (n d : Z) : float64 := div (of_int n) (of_int d).

Definition eqb (a b : float64) : bool := SFeqb a b.   (* a == b *)
Definition ltb (a b : float64) : bool := SFltb a b.   (* a < b  *)
Definition leb (a b : float64) : bool := SFleb a b.   (* a <= b *)
Definition gtb (a b : float64) : bool := SFltb b a.   (* a > b  *)
Definition geb (a b : float64) : bool := SFleb b a.   (* a >= b *)

Definition is_nan (f : float64) : bool :=
  match f with S754_nan => true | _ => false end.
Definition is_inf (f : float64) : bool :=
  match f with S754_infinity _ => true | _ => false end.

(** Truncation toward zero of a finite value; [None] for NaN and the
    infinities. *)
Definition trunc (f : float64) : option Z :=
  match f with
  | S754_zero _ => Some 0
  | S754_finite s m e =>
      let a := if 0 <=? e then Z.shiftl (Zpos m) e
               else Z.shiftr (Zpos m) (- e) in
      Some (if s then - a else a)
  | S754_infinity _ | S754_nan => None
  end.

(** [math.Mod(x, y)]: the remainder of [x / y] with the sign of [x],
    computed without rounding error.  Special cases, as documented:
    [Mod(+-Inf, y) = NaN], [Mod(NaN, y) = NaN], [Mod(x, 0) = NaN],
    [Mod(x, +-Inf) = x], [Mod(x, NaN) = NaN]. *)
Definition Mod (x y : float64) : float64 :=
  match x, y with
  | S754_nan, _ | _, S754_nan => S754_nan
  | S754_infinity _, _ => S754_nan
  | _, S754_zero _ => S754_nan
  | _, S754_infinity _ => x
  | S754_zero s, S754_finite _ _ _ => S754_zero s
  | S754_finite sx mx ex, S754_finite _ my ey =>
      let e := Z.min ex ey in
      let r := Z.rem (Z.shiftl (Zpos mx) (ex - e)) (Z.shiftl (Zpos my) (ey - e)) in
      binary_normalize prec emax (if sx then - r else r) e sx
  end.

End F64.

Abbreviation float64 := F64.float64.

(** ** What the game takes from outside the repository

    - [conv_undefined]: the result of [int(f)] when [f] is NaN, infinite or
      beyond the range of [int].  The language leaves it to the
      implementation (amd64 yields [-2^63]; arm64 yields [0] for NaN and
      saturates otherwise).
    - [math_Sin]: the library's sine.
    - [termlink_Link]: the hyperlink escape sequence for a text and a URL.
    - [fmt_f1]: [fmt.Sprintf("%.1f", f)]. *)

Class Runtime : Type := {
  conv_undefined : float64 -> Z;
  math_Sin : float64 -> float64;
  termlink_Link : string -> string -> string;
  fmt_f1 : float64 -> string
}.

(** [int(f)]: truncation toward zero when the result fits. *)
Definition to_int `{Runtime} (f : float64) : Z :=
  match F64.trunc f with
  | Some z =>
      if (GoInt.min_int <=? z) && (z <=? GoInt.max_int) then z
      else GoInt.wrap (conv_undefined f)
  | None => GoInt.wrap (conv_undefined f)
  end.

(** ** Time: instants and durations in nanoseconds *)

Module Time.

Definition Second : Z := 1000000000.

(** [t.Sub(u)], saturating at the bounds of [Duration]. *)
Definition Sub (t u : Z) : Z :=
  Z.max GoInt.min_int (Z.min GoInt.max_int (t - u)).

(** [d.Seconds()]. *)
Definition Seconds (d : Z) : float64 :=
  let sec := Z.quot d Second in
  let nsec := Z.rem d Second in
  F64.add (F64.of_int sec) (F64.div (F64.of_int nsec) (F64.of_int 1000000000)).

(** [t.UnixMilli()]. *)
Definition UnixMilli (t : Z) : Z := Z.div t 1000000.

End Time.

(** ** Data model (grype/runner.go, game/model.go) *)

Record Vulnerability : Type := {
  ID : string;
  Severity : string;
  CVSS : float64;
  Package : string;
  Description : string
}.

(** A [grype.VulnerabilitySource]: the outcome of its [GetVulnerabilities]
    and, for a [*grype.ScannerSource], its image. *)
Record VulnerabilitySource : Type := {
  scannerImage : option string;
  GetVulnerabilities : list Vulnerability + string
}.

Inductive gameState : Type :=
| stateLoading | statePlaying | stateGameOver | stateVictory.

Definition gameAreaHeight : Z := 20.
Definition minTerminalHeight : Z := 22.

Record position : Type := { x : Z; y : Z }.

Record obstacle : Type := {
  pos : position;
  floatX : float64;
  width : Z;
  speed : float64;
  cveID : string;
  severity : float64;
  severityLabel : string
}.

Record decorativeItem : Type := {
  d_x : Z;
  d_y : Z;
  symbol : string;
  d_floatX : float64;
  d_floatY : float64;
  d_speed : float64
}.

Record lane : Type := {
  l_y : Z;
  direction : Z;
  l_speed : float64
}.

Record Model : Type := {
  vulnSource : VulnerabilitySource;
  state : gameState;
  loadingMsg : string;
  frog : position;
  obstacles : list obstacle;
  lanes : list lane;
  gameStartTime : Z;
  totalVulns : Z;
  containerImage : string;
  collisionCVE : string;
  collisionMsg : string;
  collisionObs : option obstacle;
  m_width : Z;
  m_height : Z;
  lastUpdate : Z;
  hasMoved : bool;
  firstMoveTime : Z;
  isZeroVulnGame : bool;
  decorativeItems : list decorativeItem;
  loadedVulns : list Vulnerability
}.

(** Field updates, one per field the game logic assigns. *)
Definition set_state (s : gameState) (m : Model) : Model :=
  {| vulnSource := vulnSource m; state := s; loadingMsg := loadingMsg m;
     frog := frog m; obstacles := obstacles m; lanes := lanes m;
     gameStartTime := gameStartTime m; totalVulns := totalVulns m;
     containerImage := containerImage m; collisionCVE := collisionCVE m;
     collisionMsg := collisionMsg m; collisionObs := collisionObs m;
     m_width := m_width m; m_height := m_height m; lastUpdate := lastUpdate m;
     hasMoved := hasMoved m; firstMoveTime := firstMoveTime m;
     isZeroVulnGame := isZeroVulnGame m; decorativeItems := decorativeItems m;
     loadedVulns := loadedVulns m |}.

Definition set_frog (p : position) (m : Model) : Model :=
  {| vulnSource := vulnSource m; state := state m; loadingMsg := loadingMsg m;
     frog := p; obstacles := obstacles m; lanes := lanes m;
     gameStartTime := gameStartTime m; totalVulns := totalVulns m;
     containerImage := containerImage m; collisionCVE := collisionCVE m;
     collisionMsg := collisionMsg m; collisionObs := collisionObs m;
     m_width := m_width m; m_height := m_height m; lastUpdate := lastUpdate m;
     hasMoved := hasMoved m; firstMoveTime := firstMoveTime m;
     isZeroVulnGame := isZeroVulnGame m; decorativeItems := decorativeItems m;
     loadedVulns := loadedVulns m |}.

Definition set_obstacles (l : list obstacle) (m : Model) : Model :=
  {| vulnSource := vulnSource m; state := state m; loadingMsg := loadingMsg m;
     frog := frog m; obstacles := l; lanes := lanes m;
     gameStartTime := gameStartTime m; totalVulns := totalVulns m;
     containerImage := containerImage m; collisionCVE := collisionCVE m;
     collisionMsg := collisionMsg m; collisionObs := collisionObs m;
     m_width := m_width m; m_height := m_height m; lastUpdate := lastUpdate m;
     hasMoved := hasMoved m; firstMoveTime := firstMoveTime m;
     isZeroVulnGame := isZeroVulnGame m; decorativeItems := decorativeItems m;
     loadedVulns := loadedVulns m |}.

Definition set_lanes (l : list lane) (m : Model) : Model :=
  {| vulnSource := vulnSource m; state := state m; loadingMsg := loadingMsg m;
     frog := frog m; obstacles := obstacles m; lanes := l;
     gameStartTime := gameStartTime m; totalVulns := totalVulns m;
     containerImage := containerImage m; collisionCVE := collisionCVE m;
     collisionMsg := collisionMsg m; collisionObs := collisionObs m;
     m_width := m_width m; m_height := m_height m; lastUpdate := lastUpdate m;
     hasMoved := hasMoved m; firstMoveTime := firstMoveTime m;
     isZeroVulnGame := isZeroVulnGame m; decorativeItems := decorativeItems m;
     loadedVulns := loadedVulns m |}.

Definition set_start (t : Z) (n : Z) (m : Model) : Model :=
  {| vulnSource := vulnSource m; state := state m; loadingMsg := loadingMsg m;
     frog := frog m; obstacles := obstacles m; lanes := lanes m;
     gameStartTime := t; totalVulns := n;
     containerImage := containerImage m; collisionCVE := collisionCVE m;
     collisionMsg := collisionMsg m; collisionObs := collisionObs m;
     m_width := m_width m; m_height := m_height m; lastUpdate := lastUpdate m;
     hasMoved := hasMoved m; firstMoveTime := firstMoveTime m;
     isZeroVulnGame := isZeroVulnGame m; decorativeItems := decorativeItems m;
     loadedVulns := loadedVulns m |}.

Definition set_collision (cve msg : string) (o : option obstacle) (m : Model) : Model :=
  {| vulnSource := vulnSource m; state := state m; loadingMsg := loadingMsg m;
     frog := frog m; obstacles := obstacles m; lanes := lanes m;
     gameStartTime := gameStartTime m; totalVulns := totalVulns m;
     containerImage := containerImage m; collisionCVE := cve;
     collisionMsg := msg; collisionObs := o;
     m_width := m_width m; m_height := m_height m; lastUpdate := lastUpdate m;
     hasMoved := hasMoved m; firstMoveTime := firstMoveTime m;
     isZeroVulnGame := isZeroVulnGame m; decorativeItems := decorativeItems m;
     loadedVulns := loadedVulns m |}.

Definition set_size (w h : Z) (m : Model) : Model :=
  {| vulnSource := vulnSource m; state := state m; loadingMsg := loadingMsg m;
     frog := frog m; obstacles := obstacles m; lanes := lanes m;
     gameStartTime := gameStartTime m; totalVulns := totalVulns m;
     containerImage := containerImage m; collisionCVE := collisionCVE m;
     collisionMsg := collisionMsg m; collisionObs := collisionObs m;
     m_width := w; m_height := h; lastUpdate := lastUpdate m;
     hasMoved := hasMoved m; firstMoveTime := firstMoveTime m;
     isZeroVulnGame := isZeroVulnGame m; decorativeItems := decorativeItems m;
     loadedVulns := loadedVulns m |}.

Definition set_lastUpdate (t : Z) (m : Model) : Model :=
  {| vulnSource := vulnSource m; state := state m; loadingMsg := loadingMsg m;
     frog := frog m; obstacles := obstacles m; lanes := lanes m;
     gameStartTime := gameStartTime m; totalVulns := totalVulns m;
     containerImage := containerImage m; collisionCVE := collisionCVE m;
     collisionMsg := collisionMsg m; collisionObs := collisionObs m;
     m_width := m_width m; m_height := m_height m; lastUpdate := t;
     hasMoved := hasMoved m; firstMoveTime := firstMoveTime m;
     isZeroVulnGame := isZeroVulnGame m; decorativeItems := decorativeItems m;
     loadedVulns := loadedVulns m |}.

Definition set_moved (b : bool) (t : Z) (m : Model) : Model :=
  {| vulnSource := vulnSource m; state := state m; loadingMsg := loadingMsg m;
     frog := frog m; obstacles := obstacles m; lanes := lanes m;
     gameStartTime := gameStartTime m; totalVulns := totalVulns m;
     containerImage := containerImage m; collisionCVE := collisionCVE m;
     collisionMsg := collisionMsg m; collisionObs := collisionObs m;
     m_width := m_width m; m_height := m_height m; lastUpdate := lastUpdate m;
     hasMoved := b; firstMoveTime := t;
     isZeroVulnGame := isZeroVulnGame m; decorativeItems := decorativeItems m;
     loadedVulns := loadedVulns m |}.

Definition set_zeroVuln (b : bool) (m : Model) : Model :=
  {| vulnSource := vulnSource m; state := state m; loadingMsg := loadingMsg m;
     frog := frog m; obstacles := obstacles m; lanes := lanes m;
     gameStartTime := gameStartTime m; totalVulns := totalVulns m;
     containerImage := containerImage m; collisionCVE := collisionCVE m;
     collisionMsg := collisionMsg m; collisionObs := collisionObs m;
     m_width := m_width m; m_height := m_height m; lastUpdate := lastUpdate m;
     hasMoved := hasMoved m; firstMoveTime := firstMoveTime m;
     isZeroVulnGame := b; decorativeItems := decorativeItems m;
     loadedVulns := loadedVulns m |}.

Definition set_decorativeItems (l : list decorativeItem) (m : Model) : Model :=
  {| vulnSource := vulnSource m; state := state m; loadingMsg := loadingMsg m;
     frog := frog m; obstacles := obstacles m; lanes := lanes m;
     gameStartTime := gameStartTime m; totalVulns := totalVulns m;
     containerImage := containerImage m; collisionCVE := collisionCVE m;
     collisionMsg := collisionMsg m; collisionObs := collisionObs m;
     m_width := m_width m; m_height := m_height m; lastUpdate := lastUpdate m;
     hasMoved := hasMoved m; firstMoveTime := firstMoveTime m;
     isZeroVulnGame := isZeroVulnGame m; decorativeItems := l;
     loadedVulns := loadedVulns m |}.

Definition set_loadedVulns (l : list Vulnerability) (m : Model) : Model :=
  {| vulnSource := vulnSource m; state := state m; loadingMsg := loadingMsg m;
     frog := frog m; obstacles := obstacles m; lanes := lanes m;
     gameStartTime := gameStartTime m; totalVulns := totalVulns m;
     containerImage := containerImage m; collisionCVE := collisionCVE m;
     collisionMsg := collisionMsg m; collisionObs := collisionObs m;
     m_width := m_width m; m_height := m_height m; lastUpdate := lastUpdate m;
     hasMoved := hasMoved m; firstMoveTime := firstMoveTime m;
     isZeroVulnGame := isZeroVulnGame m; decorativeItems := decorativeItems m;
     loadedVulns := l |}.

(** ** Messages and commands of the event loop *)

Inductive Msg : Type :=
| KeyMsg (key : string)
| WindowSizeMsg (Width Height : Z)
| vulnerabilitiesLoadedMsg (vulns : list Vulnerability)
| vulnerabilityErrorMsg (err : string)
| tickMsg
| otherMsg.

(** A [tea.Cmd] is a batch of requests to the event loop; [nil] is the
    empty batch. *)
Inductive Request : Type :=
| reqQuit                   (* tea.Quit *)
| reqEnterAltScreen         (* tea.EnterAltScreen *)
| reqTick                   (* m.tick() *)
| reqLoadVulnerabilities.   (* m.loadVulnerabilities() *)

Definition Cmd : Type := list Request.

Definition cmdNil : Cmd := [].
Definition cmdQuit : Cmd := [reqQuit].
Definition cmdTick : Cmd := [reqTick].

Definition is_load (r : Request) : bool :=
  match r with reqLoadVulnerabilities => true | _ => false end.

(** How many runs of [GetVulnerabilities] a command stands for. *)
Definition fetches (c : Cmd) : nat := List.length (filter is_load c).

(** The message a [loadVulnerabilities] command posts when it runs. *)
Definition loadVulnerabilities (m : Model) : Msg :=
  match GetVulnerabilities (vulnSource m) with
  | inr err => vulnerabilityErrorMsg err
  | inl vulns => vulnerabilitiesLoadedMsg vulns
  end.

(** ** Floating-point constants of the source *)

Module K.
Definition f0    : float64 := F64.of_int 0.
Definition f0_2  : float64 := F64.lit 2 10.
Definition f0_3  : float64 := F64.lit 3 10.
Definition f0_5  : float64 := F64.lit 5 10.
Definition f0_8  : float64 := F64.lit 8 10.
Definition f1_0  : float64 := F64.of_int 1.
Definition f1_2  : float64 := F64.lit 12 10.
Definition f1_3  : float64 := F64.lit 13 10.
Definition f1_5  : float64 := F64.lit 15 10.
Definition f2_0  : float64 := F64.of_int 2.
Definition f4_0  : float64 := F64.of_int 4.
Definition f7_0  : float64 := F64.of_int 7.
Definition f8_0  : float64 := F64.of_int 8.
Definition f9_0  : float64 := F64.of_int 9.
Definition f10_0 : float64 := F64.of_int 10.
Definition f12_0 : float64 := F64.of_int 12.
Definition f20_0 : float64 := F64.of_int 20.
Definition f30_0 : float64 := F64.of_int 30.
Definition f1000_0 : float64 := F64.of_int 1000.
Definition fm2_0 : float64 := F64.of_int (-2).
End K.

(** ** Severity classes *)

Inductive obstacleType : Type :=
| obstacleTypeCar | obstacleTypeTruck | obstacleTypeBoss.

(** [getObstacleProperties]: width, speed multiplier and class. *)
Definition getObstacleProperties (vuln : Vulnerability)
  : Z * float64 * obstacleType :=
  if F64.gtb (CVSS vuln) K.f0 then
    if F64.geb (CVSS vuln) K.f9_0 then (2, K.f1_5, obstacleTypeBoss)
    else if F64.geb (CVSS vuln) K.f7_0 then (2, K.f1_2, obstacleTypeTruck)
    else if F64.geb (CVSS vuln) K.f4_0 then (1, K.f1_3, obstacleTypeCar)
    else (1, K.f1_0, obstacleTypeCar)
  else
    if String.eqb (Severity vuln) "Critical" then (2, K.f1_5, obstacleTypeBoss)
    else if String.eqb (Severity vuln) "High" then (2, K.f1_2, obstacleTypeTruck)
    else if String.eqb (Severity vuln) "Medium" then (1, K.f1_3, obstacleTypeCar)
    else if String.eqb (Severity vuln) "Low" then (1, K.f1_0, obstacleTypeCar)
    else if String.eqb (Severity vuln) "Negligible" then (1, K.f0_8, obstacleTypeCar)
    else (1, K.f1_0, obstacleTypeCar).

(** ** Obstacle generation *)

Definition zero_lane : lane := {| l_y := 0; direction := 0; l_speed := S754_zero false |}.

(** The spacing chosen from the number of vulnerabilities. *)
Definition spacingFor (len_vulns : Z) : float64 :=
  if 200 <? len_vulns then K.f8_0
  else if 100 <? len_vulns then K.f12_0
  else K.f20_0.

(** [loopLength] of the iteration. *)
Definition loopLengthFor (len_vulns numLanes : Z) : float64 :=
  F64.mul (F64.of_int (Z.quot len_vulns numLanes)) (spacingFor len_vulns).

(** The local [x] of iteration [i] before the wrap. *)
Definition rawX (len_vulns numLanes i : Z) : float64 :=
  let laneIdx := Z.rem i numLanes in
  let obstacleIndexInLane := Z.quot i numLanes in
  let spacing := spacingFor len_vulns in
  let baseX := F64.mul (F64.of_int obstacleIndexInLane) spacing in
  let laneOffset := F64.mul (F64.of_int laneIdx) K.f2_0 in
  let variation := F64.mul (F64.of_int (Z.rem i 7 - 3)) K.f0_5 in
  F64.add (F64.add baseX laneOffset) variation.

(** The local [x] of iteration [i] after the wrap:
    [x = math.Mod(x, loopLength); if x < 0 { x += loopLength }]. *)
Definition wrappedX (len_vulns numLanes i : Z) : float64 :=
  let loopLength := loopLengthFor len_vulns numLanes in
  let x := F64.Mod (rawX len_vulns numLanes i) loopLength in
  if F64.ltb x K.f0 then F64.add x loopLength else x.

(** The obstacle appended by iteration [i] of the loop over [vulns]. *)
Definition obstacleAt `{Runtime} (lanes : list lane) (m_width len_vulns : Z)
    (i : Z) (vuln : Vulnerability) : obstacle :=
  let numLanes := Z.of_nat (List.length lanes) in
  let laneIdx := Z.rem i numLanes in
  let lane := nth (Z.to_nat laneIdx) lanes zero_lane in
  let '(width, speedMultiplier, _) := getObstacleProperties vuln in
  let loopLength := loopLengthFor len_vulns numLanes in
  let x := wrappedX len_vulns numLanes i in
  let startX :=
    if 0 <? direction lane then
      GoInt.sub (to_int x) (GoInt.quot (to_int loopLength) 2)
    else
      GoInt.sub (GoInt.add (to_int x) m_width) (GoInt.quot (to_int loopLength) 2) in
  {| pos := {| x := startX; y := l_y lane |};
     floatX := F64.of_int startX;
     width := width;
     speed := F64.mul (F64.mul (l_speed lane) speedMultiplier)
                      (F64.of_int (direction lane));
     cveID := ID vuln;
     severity := CVSS vuln;
     severityLabel := Severity vuln |}.

(** [for i, vuln := range vulns { ...; m.obstacles = append(m.obstacles, ...) }],
    entered at index [i] with [acc] already appended. *)
Fixpoint generateObstacles_loop `{Runtime} (lanes : list lane)
    (m_width len_vulns : Z) (i : Z) (vulns : list Vulnerability)
    (acc : list obstacle) : list obstacle :=
  match vulns with
  | [] => acc
  | vuln :: rest =>
      generateObstacles_loop lanes m_width len_vulns (i + 1) rest
        (acc ++ [obstacleAt lanes m_width len_vulns i vuln])
  end.

Definition generateObstacles `{Runtime} (m : Model) (vulns : list Vulnerability)
  : Model :=
  let m := set_obstacles [] m in
  let numLanes := Z.of_nat (List.length (lanes m)) in
  if numLanes =? 0 then m
  else
    set_obstacles
      (generateObstacles_loop (lanes m) (m_width m) (Z.of_nat (List.length vulns))
         0 vulns [])
      m.

(** ** Starting a game *)

Definition lanePositions : list Z := [18; 16; 14; 12; 10; 8; 6; 4].

(** [for i, y := range lanePositions { if y < gameAreaHeight { append } }]. *)
Fixpoint initLanes (i : Z) (ys : list Z) (acc : list lane) : list lane :=
  match ys with
  | [] => acc
  | y :: rest =>
      initLanes (i + 1) rest
        (if y <? gameAreaHeight then
           acc ++ [{| l_y := y;
                      direction := 1 - 2 * Z.rem i 2;
                      l_speed := F64.add K.f0_5
                                   (F64.mul (F64.of_int (Z.rem i 3)) K.f0_3) |}]
         else acc)
  end.

(** UTF-8 text given by its bytes. *)
Definition utf8 (bytes : list nat) : string :=
  fold_right (fun b s => String (ascii_of_nat b) s) EmptyString bytes.

Definition green_heart : string := utf8 [240; 159; 146; 154]%nat.
Definition sparkles : string := utf8 [226; 156; 168]%nat.
Definition star : string := utf8 [226; 173; 144]%nat.

Definition symbols : list string :=
  [green_heart; sparkles; green_heart; star; green_heart; sparkles].

(** The item appended by iteration [i] of [initializeDecorativeItems]. *)
Definition decorativeItemAt (m : Model) (i : Z) : decorativeItem :=
  let item_x :=
    GoInt.sub
      (GoInt.add (GoInt.quot (GoInt.mul i (m_width m)) 12) (Z.rem i 3)) 1 in
  let item_y := 1 + Z.rem i (gameAreaHeight - 2) in
  let item_y :=
    if (item_y =? y (frog m)) && (GoInt.sub (x (frog m)) 2 <=? item_x)
       && (item_x <=? GoInt.add (x (frog m)) 2)
    then
      let item_y := Z.rem (item_y + 3) (gameAreaHeight - 1) in
      if item_y =? 0 then 1 else item_y
    else item_y in
  {| d_x := item_x;
     d_y := item_y;
     symbol := nth (Z.to_nat (Z.rem i (Z.of_nat (List.length symbols))))
                 symbols EmptyString;
     d_floatX := F64.of_int item_x;
     d_floatY := F64.of_int item_y;
     d_speed := F64.add K.f0_3 (F64.mul (F64.of_int (Z.rem i 3)) K.f0_2) |}.

(** [for i := 0; i < 12; i++ { append }]. *)
Definition initializeDecorativeItems (m : Model) : Model :=
  set_decorativeItems
    (map (fun i => decorativeItemAt m (Z.of_nat i)) (seq 0 12))
    m.

(** [startGame]; [now] is the clock reading during the call. *)
Definition startGame `{Runtime} (now : Z) (m : Model) (vulns : list Vulnerability)
  : Model :=
  let m := set_state statePlaying m in
  let m := set_start now (Z.of_nat (List.length vulns)) m in
  let m := set_frog {| x := GoInt.quot (m_width m) 2; y := gameAreaHeight - 1 |} m in
  let m := set_lanes (initLanes 0 lanePositions []) m in
  let m := generateObstacles m vulns in
  let m :=
    if Z.of_nat (List.length vulns) =? 0
    then initializeDecorativeItems (set_zeroVuln true m)
    else m in
  set_lastUpdate now m.

(** ** Collision *)

Definition checkCollision (frog : position) (obs : obstacle) : bool :=
  if negb (y frog =? y (pos obs)) then false
  else (x (pos obs) <=? x frog) && (x frog <? GoInt.add (x (pos obs)) (width obs)).

Definition has_prefix (p s : string) : bool := String.prefix p s.

Definition getVulnerabilityURL (vulnID : string) : string :=
  if has_prefix "CVE-" vulnID then
    ("https://nvd.nist.gov/vuln/detail/" ++ vulnID)%string
  else if has_prefix "GHSA-" vulnID then
    ("https://github.com/advisories/" ++ vulnID)%string
  else ""%string.

Record CollisionMessageParts : Type := {
  Prefix : string;
  VulnID : string;
  Suffix : string
}.

Definition FormatCollisionMessageParts `{Runtime} (obs : obstacle)
  : CollisionMessageParts :=
  let severity_text :=
    if String.eqb (severityLabel obs) "" then
      if F64.geb (severity obs) K.f9_0 then "Critical"%string
      else if F64.geb (severity obs) K.f7_0 then "High"%string
      else if F64.geb (severity obs) K.f4_0 then "Medium"%string
      else "Low"%string
    else severityLabel obs in
  let url := getVulnerabilityURL (cveID obs) in
  {| Prefix := "You were hit by ";
     VulnID := if String.eqb url "" then cveID obs
               else termlink_Link (cveID obs) url;
     Suffix :=
       if F64.gtb (severity obs) K.f0 then
         (" (" ++ severity_text ++ ", CVSS " ++ fmt_f1 (severity obs)
            ++ "). Game over!")%string
       else (" (" ++ severity_text ++ "). Game over!")%string |}.

Definition formatCollisionMessage `{Runtime} (obs : obstacle) : string :=
  let parts := FormatCollisionMessageParts obs in
  (Prefix parts ++ VulnID parts ++ Suffix parts)%string.

(** ** The physics step *)

Definition set_obstacle_x (px : Z) (fx : float64) (o : obstacle) : obstacle :=
  {| pos := {| x := px; y := y (pos o) |};
     floatX := fx;
     width := width o;
     speed := speed o;
     cveID := cveID o;
     severity := severity o;
     severityLabel := severityLabel o |}.

(** One iteration of the loop over [m.obstacles] in [updateGame]: the move
    by [speed * delta * 30.0], the truncation to the integer position and
    the wrap around the screen. *)
Definition moveObstacle `{Runtime} (m_width : Z) (delta : float64) (o : obstacle)
  : obstacle :=
  let movement := F64.mul (F64.mul (speed o) delta) K.f30_0 in
  let fx := F64.add (floatX o) movement in
  let px := to_int fx in
  if px <? GoInt.sub (GoInt.neg (width o)) 5 then
    set_obstacle_x (GoInt.add m_width 5) (F64.of_int (GoInt.add m_width 5)) o
  else if GoInt.add m_width 5 <? px then
    set_obstacle_x (GoInt.sub (GoInt.neg (width o)) 5)
      (F64.of_int (GoInt.sub (GoInt.neg (width o)) 5)) o
  else set_obstacle_x px fx o.

(** One iteration of the loop over [m.decorativeItems]. *)
Definition moveDecorative `{Runtime} (m_width now : Z) (delta : float64) (i : Z)
    (d : decorativeItem) : decorativeItem :=
  let fx := F64.add (d_floatX d) (F64.mul (F64.mul (d_speed d) delta) K.f10_0) in
  let bobAmount :=
    F64.mul
      (math_Sin (F64.add (F64.div (F64.of_int (Time.UnixMilli now)) K.f1000_0)
                         (F64.of_int i)))
      K.f0_5 in
  let fy := F64.add (d_floatY d) (F64.mul bobAmount delta) in
  let ix := to_int fx in
  let iy := to_int fy in
  if GoInt.add m_width 2 <? ix then
    {| d_x := -2; d_y := iy; symbol := symbol d;
       d_floatX := K.fm2_0; d_floatY := fy; d_speed := d_speed d |}
  else
    {| d_x := ix; d_y := iy; symbol := symbol d;
       d_floatX := fx; d_floatY := fy; d_speed := d_speed d |}.

Fixpoint moveDecorative_loop `{Runtime} (m_width now : Z) (delta : float64)
    (i : Z) (items : list decorativeItem) : list decorativeItem :=
  match items with
  | [] => []
  | d :: rest =>
      moveDecorative m_width now delta i d
        :: moveDecorative_loop m_width now delta (i + 1) rest
  end.

(** [for _, obs := range m.obstacles { if m.checkCollision(m.frog, obs) {...; return m} }]. *)
Fixpoint collide_loop `{Runtime} (m : Model) (obs_list : list obstacle) : Model :=
  match obs_list with
  | [] => m
  | obs :: rest =>
      if checkCollision (frog m) obs then
        set_collision (cveID obs) (formatCollisionMessage obs) (Some obs)
          (set_state stateGameOver m)
      else collide_loop m rest
  end.

(** [updateGame]; [now] is the clock reading of the call.  The receiver is a
    copy of the model whose slices share their backing arrays with the
    caller's; the caller drops its copy, so the update is written as a new
    list. *)
Definition updateGame `{Runtime} (now : Z) (m : Model) : Model :=
  let delta := Time.Seconds (Time.Sub now (lastUpdate m)) in
  let m := set_lastUpdate now m in
  let m := set_obstacles (map (moveObstacle (m_width m) delta) (obstacles m)) m in
  let m :=
    if isZeroVulnGame m then
      set_decorativeItems
        (moveDecorative_loop (m_width m) now delta 0 (decorativeItems m)) m
    else m in
  collide_loop m (obstacles m).

(** ** Restart, key presses and the update function *)

(** [restartGame] (model.go). *)
Definition restartGame `{Runtime} (now : Z) (m : Model) : Model * Cmd :=
  let m := set_state statePlaying m in
  let m := set_moved false (firstMoveTime m) m in
  let m := set_collision "" "" None m in
  let m := set_decorativeItems [] m in
  let m := set_zeroVuln false m in
  let m := set_lastUpdate now m in
  (startGame now m (loadedVulns m), cmdTick).

Definition key_in (key : string) (keys : list string) : bool :=
  existsb (String.eqb key) keys.

(** [if !m.hasMoved { m.hasMoved = true; m.firstMoveTime = time.Now() }]. *)
Definition noteMove (now : Z) (m : Model) : Model :=
  if hasMoved m then m else set_moved true now m.

Definition handleKeyPress `{Runtime} (now : Z) (m : Model) (key : string)
  : Model * Cmd :=
  match state m with
  | statePlaying =>
      if key_in key ["q"; "esc"; "ctrl+c"]%string then (m, cmdQuit)
      else
        let m :=
          if key_in key ["up"; "w"]%string then
            if 0 <? y (frog m) then
              noteMove now
                (set_frog {| x := x (frog m); y := GoInt.sub (y (frog m)) 1 |} m)
            else m
          else if key_in key ["down"; "s"]%string then
            if y (frog m) <? gameAreaHeight - 1 then
              noteMove now
                (set_frog {| x := x (frog m); y := GoInt.add (y (frog m)) 1 |} m)
            else m
          else if key_in key ["left"; "a"]%string then
            if 0 <? x (frog m) then
              noteMove now
                (set_frog {| x := GoInt.sub (x (frog m)) 1; y := y (frog m) |} m)
            else m
          else if key_in key ["right"; "d"]%string then
            if x (frog m) <? GoInt.sub (m_width m) 1 then
              noteMove now
                (set_frog {| x := GoInt.add (x (frog m)) 1; y := y (frog m) |} m)
            else m
          else m in
        if y (frog m) =? 0 then (set_state stateVictory m, cmdNil)
        else (m, cmdNil)
  | _ =>
      if key_in key ["q"; "esc"; "ctrl+c"]%string then (m, cmdQuit)
      else if key_in key ["enter"; " "]%string then
        match state m with
        | stateGameOver | stateVictory => restartGame now m
        | _ => (m, cmdNil)
        end
      else (m, cmdNil)
  end.

(** [NewModel] (model.go). *)
Definition NewModel (now : Z) (vulnSource : VulnerabilitySource) : Model :=
  {| vulnSource := vulnSource;
     state := stateLoading;
     loadingMsg :=
       match scannerImage vulnSource with
       | Some image => ("Building obstacle course from " ++ image ++ "...")%string
       | None => "Building obstacle course..."%string
       end;
     frog := {| x := 0; y := 0 |};
     obstacles := [];
     lanes := [];
     gameStartTime := 0;
     totalVulns := 0;
     containerImage :=
       match scannerImage vulnSource with
       | Some image => image
       | None => ""%string
       end;
     collisionCVE := "";
     collisionMsg := "";
     collisionObs := None;
     m_width := 80;
     m_height := 24;
     lastUpdate := now;
     hasMoved := false;
     firstMoveTime := 0;
     isZeroVulnGame := false;
     decorativeItems := [];
     loadedVulns := [] |}.

(** [Init] (model.go). *)
Definition Init (m : Model) : Cmd :=
  [reqLoadVulnerabilities; reqEnterAltScreen; reqTick].

(** [Update] (model.go); [now] is the clock reading while the message is
    handled. *)
Definition Update `{Runtime} (now : Z) (m : Model) (msg : Msg) : Model * Cmd :=
  match msg with
  | KeyMsg key => handleKeyPress now m key
  | WindowSizeMsg Width Height =>
      if (0 <? Width) && (0 <? Height) then (set_size Width Height m, cmdNil)
      else (m, cmdNil)
  | vulnerabilitiesLoadedMsg vulns =>
      (startGame now (set_loadedVulns vulns m) vulns, cmdTick)
  | vulnerabilityErrorMsg err =>
      (set_collision (collisionCVE m)
         ("Failed to load vulnerabilities: " ++ err)%string (collisionObs m)
         (set_state stateGameOver m),
       cmdQuit)
  | tickMsg =>
      match state m with
      | statePlaying => (updateGame now m, cmdTick)
      | stateLoading => (m, cmdTick)
      | _ => (m, cmdNil)
      end
  | otherMsg => (m, cmdNil)
  end.

(** A run of the event loop over a list of (clock reading, message). *)
Fixpoint run `{Runtime} (m : Model) (events : list (Z * Msg)) : Model :=
  match events with
  | [] => m
  | (now, msg) :: rest => run (fst (Update now m msg)) rest
  end.

(** ** Rendering: what is drawn on a cell (render.go, in the revision that
    draws the 20 rows of [gameAreaHeight])

    [lipgloss] styles are values; what a style does to a text is the
    library's. *)

Inductive Style : Type :=
| frogStyle | carStyle | truckStyle | bossStyle | roadStyle | finishLineStyle
| decorativeStyle | bicycleStyle | lowCarStyle | mediumCarStyle.

Class Lipgloss : Type := {
  Render : Style -> string -> string
}.

Definition t_rex : string := utf8 [240; 159; 166; 150]%nat.
Definition truck : string := utf8 [240; 159; 154; 155]%nat.
Definition car : string := utf8 [240; 159; 154; 151]%nat.
Definition bicycle : string := utf8 [240; 159; 154; 178]%nat.

(** [for _, obs := range m.obstacles { if ... { return true, ... } }]. *)
Fixpoint findObstacleAt_loop (obs_list : list obstacle) (cx cy : Z)
  : bool * float64 * string :=
  match obs_list with
  | [] => (false, K.f0, ""%string)
  | obs :: rest =>
      if (y (pos obs) =? cy) && (x (pos obs) <=? cx)
         && (cx <? GoInt.add (x (pos obs)) (width obs))
      then (true, severity obs, severityLabel obs)
      else findObstacleAt_loop rest cx cy
  end.

Definition findObstacleAt (m : Model) (cx cy : Z) : bool * float64 * string :=
  findObstacleAt_loop (obstacles m) cx cy.

Definition getObstacleEmoji `{Lipgloss} (cvssScore : float64)
    (severityLabel : string) : string :=
  if F64.gtb cvssScore K.f0 then
    if F64.geb cvssScore K.f9_0 then Render bossStyle t_rex
    else if F64.geb cvssScore K.f7_0 then Render truckStyle truck
    else if F64.geb cvssScore K.f4_0 then Render mediumCarStyle car
    else if F64.gtb cvssScore K.f0 then Render lowCarStyle car
    else Render bicycleStyle bicycle
  else
    if String.eqb severityLabel "Critical" then Render bossStyle t_rex
    else if String.eqb severityLabel "High" then Render truckStyle truck
    else if String.eqb severityLabel "Medium" then Render mediumCarStyle car
    else if String.eqb severityLabel "Low" then Render lowCarStyle car
    else if String.eqb severityLabel "Negligible" then Render bicycleStyle bicycle
    else Render carStyle car.

(** ** The vulnerability source (grype/runner.go) *)

Record CVSSMetrics : Type := { BaseScore : float64 }.

Record CVSSInfo : Type := {
  cvss_Source : string;
  cvss_Type : string;
  Score : float64;
  Metrics : CVSSMetrics
}.

Record VulnerabilityInfo : Type := {
  vi_ID : string;
  vi_Severity : string;
  vi_Description : string;
  vi_CVSS : list CVSSInfo
}.

Record ArtifactInfo : Type := { Name : string; Version : string }.

Record Match : Type := {
  match_Vulnerability : VulnerabilityInfo;
  Artifact : ArtifactInfo
}.

Record Output : Type := { Matches : list Match }.

(** What [cmd.Output()] of the grype command gives. *)
Inductive CmdResult : Type :=
| cmdOutput (stdout : string)
| cmdExitError (stderr : string)
| cmdOtherError (err : string).

(** The world of the source: [json.Unmarshal] into an [Output], the run of
    [grype <image> -o json -q], and [os.ReadFile]; an error is its text. *)
Class GrypeEnv : Type := {
  json_Unmarshal : string -> Output + string;
  exec_grype : string -> CmdResult;
  os_ReadFile : string -> string + string
}.

(** The score one CVSS entry contributes: the top-level score, or the
    metrics' base score when the top-level one is 0. *)
Definition entryScore (cvss : CVSSInfo) : float64 :=
  if F64.eqb (Score cvss) K.f0 && F64.gtb (BaseScore (Metrics cvss)) K.f0
  then BaseScore (Metrics cvss)
  else Score cvss.

(** [for _, cvss := range match.Vulnerability.CVSS { ... }], from the score
    [acc] of the record so far. *)
Fixpoint highestScore (acc : float64) (entries : list CVSSInfo) : float64 :=
  match entries with
  | [] => acc
  | cvss :: rest =>
      let score := entryScore cvss in
      highestScore (if F64.gtb score acc then score else acc) rest
  end.

(** The record built for one match. *)
Definition vulnerabilityOf (mt : Match) : Vulnerability :=
  {| ID := vi_ID (match_Vulnerability mt);
     Severity := vi_Severity (match_Vulnerability mt);
     CVSS := highestScore K.f0 (vi_CVSS (match_Vulnerability mt));
     Package := Name (Artifact mt);
     Description := vi_Description (match_Vulnerability mt) |}.

(** [for _, match := range output.Matches { ...; vulns = append(vulns, vuln) }]. *)
Fixpoint parse_loop (matches : list Match) (vulns : list Vulnerability)
  : list Vulnerability :=
  match matches with
  | [] => vulns
  | mt :: rest => parse_loop rest (vulns ++ [vulnerabilityOf mt])
  end.

Definition parseGrypeOutput `{GrypeEnv} (data : string)
  : list Vulnerability + string :=
  match json_Unmarshal data with
  | inr err => inr ("failed to parse JSON: " ++ err)%string
  | inl output => inl (parse_loop (Matches output) [])
  end.

(** *** Regular expressions, as [regexp] matches them

    The pattern of [validateImageName] is anchored at both ends and uses
    ASCII classes only, so [MatchString] decides membership of the whole
    name in the pattern's language; derivatives decide the same,
    byte by byte. *)

Inductive regex : Type :=
| Empty
| Eps
| Class (ranges : list (nat * nat))
| Seq (r1 r2 : regex)
| Alt (r1 r2 : regex)
| Star (r : regex).

Definition in_class (c : ascii) (ranges : list (nat * nat)) : bool :=
  existsb (fun range => (fst range <=? nat_of_ascii c)%nat
                        && (nat_of_ascii c <=? snd range)%nat) ranges.

Fixpoint nullable (r : regex) : bool :=
  match r with
  | Empty => false
  | Eps => true
  | Class _ => false
  | Seq r1 r2 => nullable r1 && nullable r2
  | Alt r1 r2 => nullable r1 || nullable r2
  | Star _ => true
  end.

Fixpoint deriv (c : ascii) (r : regex) : regex :=
  match r with
  | Empty => Empty
  | Eps => Empty
  | Class ranges => if in_class c ranges then Eps else Empty
  | Seq r1 r2 =>
      Alt (Seq (deriv c r1) r2) (if nullable r1 then deriv c r2 else Empty)
  | Alt r1 r2 => Alt (deriv c r1) (deriv c r2)
  | Star r1 => Seq (deriv c r1) (Star r1)
  end.

Fixpoint matches (r : regex) (s : string) : bool :=
  match s with
  | EmptyString => nullable r
  | String c rest => matches (deriv c r) rest
  end.

Definition chr (c : ascii) : regex := Class [(nat_of_ascii c, nat_of_ascii c)].

Fixpoint lit (s : string) : regex :=
  match s with
  | EmptyString => Eps
  | String c rest => Seq (chr c) (lit rest)
  end.

Definition opt (r : regex) : regex := Alt r Eps.
Definition plus (r : regex) : regex := Seq r (Star r).

(** [a-zA-Z0-9] *)
Definition alnum : list (nat * nat) := [(97, 122); (65, 90); (48, 57)]%nat.
(** [a-zA-Z0-9._\-/:] *)
Definition nameClass : list (nat * nat) :=
  alnum ++ [(46, 46); (95, 95); (45, 45); (47, 47); (58, 58)]%nat.
(** [a-zA-Z0-9._\-] *)
Definition tagClass : list (nat * nat) :=
  alnum ++ [(46, 46); (95, 95); (45, 45)]%nat.
(** [a-f0-9] *)
Definition hexClass : list (nat * nat) := [(97, 102); (48, 57)]%nat.

(** The pattern: one [alnum], any number of [nameClass], an optional colon
    with one or more [tagClass], an optional at-sign, sha256, colon with one
    or more [hexClass]. *)
Definition validImageRegex : regex :=
  Seq (Class alnum)
    (Seq (Star (Class nameClass))
       (Seq (opt (Seq (chr ":") (plus (Class tagClass))))
          (opt (Seq (lit "@sha256:") (plus (Class hexClass)))))).

(** [strings.Contains]. *)
Fixpoint strings_Contains (s substr : string) : bool :=
  String.prefix substr s
  || match s with
     | EmptyString => false
     | String _ rest => strings_Contains rest substr
     end.

Definition dangerousChars : list string :=
  [";"; "&"; "|"; "`"; "$"; "("; ")"; "{"; "}"; "["; "]"; "<"; ">";
   String (ascii_of_nat 10) ""; String (ascii_of_nat 13) "";
   String (ascii_of_nat 92) ""]%string.

(** [for _, char := range dangerousChars { if strings.Contains(...) ... }]:
    the error of the first listed character the name contains. *)
Fixpoint dangerous_loop (image : string) (chars : list string) : option string :=
  match chars with
  | [] => None
  | char :: rest =>
      if strings_Contains image char
      then Some ("image name contains invalid character: " ++ char)%string
      else dangerous_loop image rest
  end.

(** [validateImageName]: the error, [None] for [nil]. *)
Definition validateImageName (image : string) : option string :=
  if String.eqb image "" then Some "image name cannot be empty"%string
  else match dangerous_loop image dangerousChars with
       | Some err => Some err
       | None =>
           if negb (matches validImageRegex image)
           then Some "image name contains invalid format"%string
           else None
       end.

(** [ScannerSource.GetVulnerabilities], on the image [image]. *)
Definition ScannerSource_GetVulnerabilities `{GrypeEnv} (image : string)
  : list Vulnerability + string :=
  match validateImageName image with
  | Some err => inr ("invalid image name: " ++ err)%string
  | None =>
      match exec_grype image with
      | cmdExitError stderr => inr ("grype failed: " ++ stderr)%string
      | cmdOtherError err => inr ("failed to run grype: " ++ err)%string
      | cmdOutput output => parseGrypeOutput output
      end
  end.

(** [FileSource.GetVulnerabilities], on the path [path]. *)
Definition FileSource_GetVulnerabilities `{GrypeEnv} (path : string)
  : list Vulnerability + string :=
  match os_ReadFile path with
  | inr err => inr ("failed to read file: " ++ err)%string
  | inl data => parseGrypeOutput data
  end.

(** The two sources as the game sees them: [NewModel] asks whether the
    source is a [*grype.ScannerSource] and, if so, for its image. *)
Definition ScannerSource `{GrypeEnv} (image : string) : VulnerabilitySource :=
  {| scannerImage := Some image;
     GetVulnerabilities := ScannerSource_GetVulnerabilities image |}.

Definition FileSource `{GrypeEnv} (path : string) : VulnerabilitySource :=
  {| scannerImage := None;
     GetVulnerabilities := FileSource_GetVulnerabilities path |}.

(** ** The board of a frame (render.go)

    [renderGame] first fills a board of runes, one row per game row, and
    then turns it into text.  A rune is its code point.  An index out of
    range, or a negative length given to [make], panics: [None]. *)






















(** * Vocabulary of the statements *)

(** Width and speed multiplier of [getObstacleProperties]. *)
Definition widthAndMultiplier (vuln : Vulnerability) : Z * float64 :=
  let '(width, speedMultiplier, _) := getObstacleProperties vuln in
  (width, speedMultiplier).

(** The obstacles the loop of [generateObstacles] appends, from index [i]
    on. *)
Fixpoint obstaclesFrom `{Runtime} (lanes : list lane) (m_width len_vulns i : Z)
    (vulns : list Vulnerability) : list obstacle :=
  match vulns with
  | [] => []
  | vuln :: rest =>
      obstacleAt lanes m_width len_vulns i vuln
        :: obstaclesFrom lanes m_width len_vulns (i + 1) rest
  end.

(** The eight lanes of [startGame]. *)
Definition startLanes : list lane := initLanes 0 lanePositions [].

(** The model [restartGame] hands to [startGame]. *)
Definition resetModel (now : Z) (m : Model) : Model :=
  set_lastUpdate now
    (set_zeroVuln false
       (set_decorativeItems []
          (set_collision "" "" None
             (set_moved false (firstMoveTime m) (set_state statePlaying m))))).

(** What one tick, or several, may change in an obstacle ([o] before, [o']
    after) at viewport width [W]: nothing but the position; the integer
    position ends inside the wrap bounds; and it is either the truncation
    of the float position or, after a teleport, the float position is the
    exact conversion of the integer edge. *)
Definition tick_rel `{Runtime} (W : Z) (o o' : obstacle) : Prop :=
  speed o' = speed o
  /\ width o' = width o
  /\ y (pos o') = y (pos o)
  /\ cveID o' = cveID o
  /\ severity o' = severity o
  /\ severityLabel o' = severityLabel o
  /\ - (width o' + 5) <= x (pos o') <= W + 5
  /\ (floatX o' = F64.of_int (x (pos o')) \/ x (pos o') = to_int (floatX o')).

(** Widths and viewports whose wrap bounds fit an [int]. *)
Definition width_ok (o : obstacle) : Prop :=
  0 <= width o <= GoInt.max_int - 5.

Definition viewport_ok (W : Z) : Prop := 0 <= W <= GoInt.max_int - 5.

(** Ticks in a row, one clock reading per tick. *)
Fixpoint ticks `{Runtime} (m : Model) (nows : list Z) : Model :=
  match nows with
  | [] => m
  | now :: rest => ticks (updateGame now m) rest
  end.

(** Rows above the game area: [minTerminalHeight] is the game area plus the
    header. *)
Definition headerRows : Z := minTerminalHeight - gameAreaHeight.

(** The frog inside the fixed game area of [gameAreaHeight] rows. *)
Definition frog_in_game_area (m : Model) : Prop :=
  0 <= x (frog m) <= m_width m - 1
  /\ 0 <= y (frog m) <= gameAreaHeight - 1.

(** The frog inside an area whose height follows the viewport: the
    viewport's height minus the header rows. *)
Definition frog_in_viewport_area (m : Model) : Prop :=
  0 <= x (frog m) <= m_width m - 1
  /\ 0 <= y (frog m) <= (m_height m - headerRows) - 1.

(** The three symbols of the decorative items. *)
Definition palette : list string := [green_heart; sparkles; star].

(** The events of a walk to the finish line: ticks and "up" keys. *)
Definition is_up (key : string) : bool := key_in key ["up"; "w"]%string.

Definition tick_or_up (ev : Z * Msg) : bool :=
  match snd ev with
  | tickMsg => true
  | KeyMsg key => is_up key
  | _ => false
  end.

Definition is_key (ev : Z * Msg) : bool :=
  match snd ev with KeyMsg _ => true | _ => false end.

(** The number of key presses among the events. *)
Definition ups (events : list (Z * Msg)) : Z :=
  Z.of_nat (List.length (filter is_key events)).

(** A property of an obstacle that no tick changes: one that every step of
    the obstacle loop of [updateGame] keeps. *)
Definition tick_stable `{Runtime} (P : obstacle -> Prop) : Prop :=
  forall (W : Z) (delta : float64) (o : obstacle),
    P o -> P (moveObstacle W delta o).

(** Rows of the lanes that run to the right and to the left. *)
Definition rightRows : list Z := [18; 14; 10; 6].
Definition leftRows : list Z := [16; 12; 8; 4].

(** The speed and row of an obstacle of a started game: on a right-running
    row between 0.39 and 1.66 cells per unit, on a left-running row between
    -1.66 and -0.39. *)
Definition speed_follows_lane (o : obstacle) : Prop :=
  (In (y (pos o)) rightRows
   /\ F64.ltb (F64.lit 39 100) (speed o) = true
   /\ F64.ltb (speed o) (F64.lit 166 100) = true)
  \/ (In (y (pos o)) leftRows
      /\ F64.ltb (F64.lit (-166) 100) (speed o) = true
      /\ F64.ltb (speed o) (F64.lit (-39) 100) = true).

(** The same test on a lane and a speed multiplier. *)
Definition lane_speed_check (ln : lane) (sm : float64) : bool :=
  let s := F64.mul (F64.mul (l_speed ln) sm) (F64.of_int (direction ln)) in
  (existsb (Z.eqb (l_y ln)) rightRows
   && F64.ltb (F64.lit 39 100) s && F64.ltb s (F64.lit 166 100))
  || (existsb (Z.eqb (l_y ln)) leftRows
      && F64.ltb (F64.lit (-166) 100) s && F64.ltb s (F64.lit (-39) 100)).

(** The five speed multipliers of [getObstacleProperties]. *)
Definition multipliers : list float64 :=
  [K.f1_5; K.f1_2; K.f1_3; K.f1_0; K.f0_8].

(** The keys of the three groups [handleKeyPress] tells apart outside the
    movement keys. *)
Definition is_quit_key (key : string) : bool :=
  key_in key ["q"; "esc"; "ctrl+c"]%string.

Definition is_restart_key (key : string) : bool :=
  key_in key ["enter"; " "]%string.

(** The shape of an obstacle of a started game. *)
Definition lane_shape (o : obstacle) : Prop :=
  (width o = 1 \/ width o = 2)
  /\ In (y (pos o)) lanePositions
  /\ speed_follows_lane o.

(** The sizes a [tea.WindowSizeMsg] carries are [int]s. *)
Definition msg_ok (msg : Msg) : Prop :=
  match msg with
  | WindowSizeMsg w h => w <= GoInt.max_int /\ h <= GoInt.max_int
  | _ => True
  end.

(** What holds of the model throughout a session. *)
Definition session_inv (m : Model) : Prop :=
  0 < m_width m <= GoInt.max_int
  /\ 0 < m_height m
  /\ 0 <= x (frog m) <= GoInt.max_int
  /\ 0 <= y (frog m) <= gameAreaHeight - 1
  /\ List.length (obstacles m) = List.length (loadedVulns m)
  /\ totalVulns m = Z.of_nat (List.length (loadedVulns m))
  /\ Forall lane_shape (obstacles m)
  /\ (lanes m = [] \/ lanes m = startLanes)
  /\ (state m = stateLoading -> loadedVulns m = [] /\ lanes m = [])
  /\ (state m = statePlaying \/ state m = stateVictory ->
      lanes m = startLanes)
  /\ (if isZeroVulnGame m
      then List.length (decorativeItems m) = 12%nat
      else decorativeItems m = []).

(** The running score of the parser is [+0] or positive. *)
Definition score_ok (s : float64) : Prop :=
  s = S754_zero false \/ F64.gtb s (S754_zero false) = true.

(** The language of a regular expression, on the list of bytes of a text. *)
Inductive rep (L : list ascii -> Prop) : list ascii -> Prop :=
| rep_nil : rep L []
| rep_app (s1 s2 : list ascii) : L s1 -> rep L s2 -> rep L (s1 ++ s2).

Fixpoint lang (r : regex) (s : list ascii) : Prop :=
  match r with
  | Empty => False
  | Eps => s = []
  | Class ranges => exists c, s = [c] /\ in_class c ranges = true
  | Seq r1 r2 => exists s1 s2, s = s1 ++ s2 /\ lang r1 s1 /\ lang r2 s2
  | Alt r1 r2 => lang r1 s \/ lang r2 s
  | Star r1 => rep (lang r1) s
  end.

(** The shape of an image name, said without the pattern. *)
Definition between (lo hi c : ascii) : bool :=
  (nat_of_ascii lo <=? nat_of_ascii c)%nat && (nat_of_ascii c <=? nat_of_ascii hi)%nat.

Definition is_alnum (c : ascii) : bool :=
  between "a" "z" c || between "A" "Z" c || between "0" "9" c.

Definition is_name_char (c : ascii) : bool :=
  is_alnum c || existsb (Ascii.eqb c) ["."; "_"; "-"; "/"; ":"]%char.

Definition is_hex (c : ascii) : bool :=
  between "a" "f" c || between "0" "9" c.

Definition all_chars (p : ascii -> bool) (s : string) : bool :=
  forallb p (list_ascii_of_string s).

(** The bytes an accepted image name can hold. *)
Definition is_image_char (c : ascii) : bool :=
  is_name_char c || Ascii.eqb c "@".

(** A letter or digit, then letters, digits and [. _ - / :], then possibly
    [@sha256:] with one or more lower-case hexadecimal digits. *)
Definition image_shape (image : string) : Prop :=
  exists (c : ascii) (body digest : string),
    image = String c (body ++ digest)%string
    /\ is_alnum c = true
    /\ all_chars is_name_char body = true
    /\ (digest = ""%string
        \/ exists h : string,
             digest = ("@sha256:" ++ h)%string
             /\ h <> ""%string
             /\ all_chars is_hex h = true).


(** The messages of play: keys, resizes, ticks and foreign messages; the two
    messages of the load are not among them. *)
Definition play_msg (msg : Msg) : Prop :=
  match msg with
  | vulnerabilitiesLoadedMsg _ => False
  | vulnerabilityErrorMsg _ => False
  | _ => msg_ok msg
  end.

(** A zero-vulnerability game that goes on. *)
Definition peaceful (m : Model) : Prop :=
  session_inv m
  /\ loadedVulns m = []
  /\ isZeroVulnGame m = true
  /\ (state m = statePlaying \/ state m = stateVictory).

(** Powers of two and the value of a [float64], as rationals. *)
Definition pow2 (e : Z) : Q := Qpower 2 e.







(** A tick of [delta] seconds does not wrap the obstacle: [moveObstacle]
    takes its last branch. *)
Definition keeps_course `{Runtime} (W : Z) (delta : float64) (o : obstacle)
  : bool :=
  let px :=
    to_int (F64.add (floatX o) (F64.mul (F64.mul (speed o) delta) K.f30_0)) in
  negb (px <? GoInt.sub (GoInt.neg (width o)) 5) && negb (GoInt.add W 5 <? px).




(** * Sample inputs *)

(** A runtime to evaluate the model with: the amd64 conversion, and
    placeholders for the three library functions, none of which reaches an
    obstacle, the frog or the state.  Every theorem below holds for all
    runtimes. *)
Definition sample_runtime : Runtime :=
  {| conv_undefined := fun _ => - 2 ^ 63;
     math_Sin := fun f => f;
     termlink_Link := fun text _ => text;
     fmt_f1 := fun _ => "?"%string |}.

Definition sample_obstacle : obstacle :=
  {| pos := {| x := 10; y := 5 |};
     floatX := F64.of_int 10;
     width := 2;
     speed := K.f1_0;
     cveID := "CVE-2021-1";
     severity := K.f0;
     severityLabel := "High" |}.

(** A record with the score given in tenths. *)
Definition sample_vuln (id label : string) (score_tenths : Z) : Vulnerability :=
  {| ID := id; Severity := label; CVSS := F64.lit score_tenths 10;
     Package := ""; Description := "" |}.

Definition sample_source : VulnerabilitySource :=
  {| scannerImage := None; GetVulnerabilities := inl [] |}.

(** The records of [TestObstacleGeneration]. *)
Definition three_vulns : list Vulnerability :=
  [sample_vuln "CVE-2021-1" "Critical" 95;
   sample_vuln "CVE-2021-2" "High" 75;
   sample_vuln "CVE-2021-3" "Medium" 0].

(** The model of [TestObstacleGeneration]: two lanes, 80 columns. *)
Definition two_lane_model : Model :=
  set_lanes
    [{| l_y := 10; direction := 1; l_speed := K.f1_0 |};
     {| l_y := 11; direction := -1; l_speed := K.f1_2 |}]
    (NewModel 0 sample_source).

Definition fresh_model : Model := NewModel 0 sample_source.

Definition sixteen_vulns : list Vulnerability :=
  map (fun _ => sample_vuln "CVE-2024-0001" "Medium" 50) (seq 0 16).

(** The sixteen-vulnerability game right after its load. *)
Definition loaded_model : Model :=
  @run sample_runtime fresh_model [(0, vulnerabilitiesLoadedMsg sixteen_vulns)].

(** A game lost to a collision: sixteen vulnerabilities loaded at 80
    columns, the frog moved up one row, and an obstacle of that row carried
    onto the frog's cell by a tick 1.15 seconds after the load. *)
Definition played_model : Model :=
  @run sample_runtime fresh_model
    [(0, vulnerabilitiesLoadedMsg sixteen_vulns);
     (100000000, KeyMsg "up");
     (1150000000, tickMsg)].

Definition four_ticks : list Z :=
  [1000000000; 2000000000; 3000000000; 4000000000].

(** One second in one tick, and in ten ticks of a tenth of a second. *)
Definition one_tick : list Z := [1000000000].

Definition ten_ticks : list Z :=
  map (fun i => Z.of_nat i * 100000000) (seq 1 10).

(** The float position of obstacle [i] after the given ticks of the loaded
    sample game. *)
Definition sample_floatX (nows : list Z) (i : nat) : float64 :=
  floatX (nth i (obstacles (@ticks sample_runtime loaded_model nows))
            sample_obstacle).

(** A session in a viewport of 21 rows: resized, loaded with no
    vulnerabilities, the frog moved up once to row 18. *)
Definition short_viewport_model : Model :=
  @run sample_runtime fresh_model
    [(0, WindowSizeMsg 80 21);
     (1000, vulnerabilitiesLoadedMsg []);
     (2000, KeyMsg "up")].

(** A record without a severity label, score 9.5. *)
Definition unlabelled_vuln : Vulnerability := sample_vuln "CVE-2024-0002" "" 95.

(** A viewport shrunk under the frog: sixteen vulnerabilities loaded at 80
    columns put the frog on column 40, and the terminal is then resized to
    20 columns. *)
Definition shrunk_model : Model :=
  @run sample_runtime fresh_model
    [(0, vulnerabilitiesLoadedMsg sixteen_vulns);
     (1000, WindowSizeMsg 20 24)].




(** * Verification *)

(** ** Machine integers *)

Lemma wrap_in_range (z : Z) : GoInt.in_range z -> GoInt.wrap z = z.
Proof.
  unfold GoInt.in_range, GoInt.wrap, GoInt.min_int, GoInt.max_int.
  intros Hz. rewrite Z.mod_small; lia.
Qed.

Lemma wrap_is_in_range (z : Z) : GoInt.in_range (GoInt.wrap z).
Proof.
  unfold GoInt.in_range, GoInt.wrap, GoInt.min_int, GoInt.max_int.
  pose proof (Z.mod_pos_bound (z + 2 ^ 63) (2 ^ 64) ltac:(lia)). lia.
Qed.

(** ** Collision geometry *)

Section Collision.

Variables (frog_pos : position) (obs : obstacle).

(** On machine integers: the right edge is the wrapped sum. *)
Lemma checkCollision_machine :
  checkCollision frog_pos obs = true <->
  y frog_pos = y (pos obs) /\
  x (pos obs) <= x frog_pos < GoInt.add (x (pos obs)) (width obs).
Proof.
  unfold checkCollision.
  destruct (Z.eqb_spec (y frog_pos) (y (pos obs))) as [Hy | Hy]; cbn.
  - rewrite andb_true_iff, Z.leb_le, Z.ltb_lt. tauto.
  - split; [discriminate | tauto].
Qed.

(** The obstacle's right edge fits a machine integer. *)
Hypothesis edge_in_range : GoInt.in_range (x (pos obs) + width obs).

Lemma checkCollision_spec :
  checkCollision frog_pos obs = true <->
  y frog_pos = y (pos obs) /\
  x (pos obs) <= x frog_pos < x (pos obs) + width obs.
Proof.
  rewrite checkCollision_machine. unfold GoInt.add.
  rewrite (wrap_in_range _ edge_in_range). tauto.
Qed.

End Collision.

(** C3.  [checkCollision] holds exactly when the frog is on the obstacle's
    row and its column lies in the half-open interval from the obstacle's
    integer position to that position plus the width (the sum as the
    machine computes it, which is the exact sum whenever that fits an
    [int]): the left edge collides (for an obstacle of positive width on
    the frog's row), the right edge does not, and no other row collides. *)
Theorem C3_checkCollision_half_open_interval :
  forall (frog_pos : position) (obs : obstacle),
    (checkCollision frog_pos obs = true <->
       y frog_pos = y (pos obs) /\
       x (pos obs) <= x frog_pos < GoInt.add (x (pos obs)) (width obs))
    /\ (GoInt.in_range (x (pos obs) + width obs) ->
        (checkCollision frog_pos obs = true <->
           y frog_pos = y (pos obs) /\
           x (pos obs) <= x frog_pos < x (pos obs) + width obs)
        /\ (y frog_pos = y (pos obs) -> 0 < width obs ->
            x frog_pos = x (pos obs) -> checkCollision frog_pos obs = true)
        /\ (x frog_pos = x (pos obs) + width obs ->
            checkCollision frog_pos obs = false))
    /\ (y frog_pos <> y (pos obs) -> checkCollision frog_pos obs = false).
Proof.
  intros f o. split; [apply checkCollision_machine | split].
  - intros Hr. pose proof (checkCollision_spec f o Hr) as Hspec.
    split; [exact Hspec | split].
    + intros Hy Hw Hx. apply Hspec. lia.
    + intros Hx. apply not_true_is_false. intros E. apply Hspec in E. lia.
  - intros Hy. apply not_true_is_false. intros E.
    apply checkCollision_machine in E. tauto.
Qed.

Lemma C3_checkCollision_witness :
  checkCollision {| x := 10; y := 5 |} sample_obstacle = true
  /\ checkCollision {| x := 12; y := 5 |} sample_obstacle = false
  /\ checkCollision {| x := 10; y := 6 |} sample_obstacle = false.
Proof.
  assert (Hr : GoInt.in_range (x (pos sample_obstacle) + width sample_obstacle))
    by (vm_compute; split; discriminate).
  destruct (C3_checkCollision_half_open_interval {| x := 10; y := 5 |}
              sample_obstacle) as (_ & Hin & _).
  destruct (Hin Hr) as (_ & Hleft & _).
  destruct (C3_checkCollision_half_open_interval {| x := 12; y := 5 |}
              sample_obstacle) as (_ & Hin' & _).
  destruct (Hin' Hr) as (_ & _ & Hright).
  destruct (C3_checkCollision_half_open_interval {| x := 10; y := 6 |}
              sample_obstacle) as (_ & _ & Hrow).
  split; [| split].
  - apply Hleft; [reflexivity | simpl; lia | reflexivity].
  - apply Hright. reflexivity.
  - apply Hrow. simpl. lia.
Defined.

(** ** The order on [float64] *)

Ltac cmp_cases :=
  repeat match goal with
  | H : context [Pos.compare_cont Eq ?a ?b] |- _ =>
      change (Pos.compare_cont Eq a b) with (Pos.compare a b) in H
  | |- context [Pos.compare_cont Eq ?a ?b] =>
      change (Pos.compare_cont Eq a b) with (Pos.compare a b)
  end;
  repeat match goal with
  | H : context [Z.compare ?a ?b] |- _ => destruct (Z.compare_spec a b); subst
  | |- context [Z.compare ?a ?b] => destruct (Z.compare_spec a b); subst
  | H : context [Pos.compare ?a ?b] |- _ => destruct (Pos.compare_spec a b); subst
  | |- context [Pos.compare ?a ?b] => destruct (Pos.compare_spec a b); subst
  end;
  cbn in *; try discriminate; try reflexivity; try lia.

Ltac float_cases a :=
  let s := fresh "s" in
  destruct a as [s | s | | s ? ?]; try destruct s.

Ltac unfold_cmp :=
  unfold F64.gtb, F64.geb, F64.ltb, F64.leb, F64.eqb, SFltb, SFleb, SFeqb,
    SFcompare in *.

Lemma ltb_leb_trans (a b c : float64) :
  F64.ltb a b = true -> F64.leb b c = true -> F64.ltb a c = true.
Proof.
  unfold_cmp. float_cases a; float_cases b; float_cases c; cbn;
    try discriminate; try reflexivity; intros H1 H2; cmp_cases.
Qed.

Lemma leb_ltb_trans (a b c : float64) :
  F64.leb a b = true -> F64.ltb b c = true -> F64.ltb a c = true.
Proof.
  unfold_cmp. float_cases a; float_cases b; float_cases c; cbn;
    try discriminate; try reflexivity; intros H1 H2; cmp_cases.
Qed.

Lemma ltb_not_geb (a b : float64) :
  F64.ltb a b = true -> F64.geb a b = false.
Proof.
  unfold_cmp. float_cases a; float_cases b; cbn;
    try discriminate; try reflexivity; intros H1; cmp_cases.
Qed.

Lemma eqb_not_gtb (a b : float64) :
  F64.eqb a b = true -> F64.gtb a b = false.
Proof.
  unfold_cmp. float_cases a; float_cases b; cbn;
    try discriminate; try reflexivity; intros H1; cmp_cases.
Qed.

(** A score at or above a positive threshold is positive. *)
Lemma geb_positive (s t : float64) :
  F64.ltb K.f0 t = true -> F64.geb s t = true -> F64.gtb s K.f0 = true.
Proof.
  intros Ht Hs. unfold F64.gtb. apply (ltb_leb_trans K.f0 t s Ht Hs).
Qed.

(** A score below a threshold is not at or above a larger one. *)
Lemma ltb_below (s t u : float64) :
  F64.leb t u = true -> F64.ltb s t = true -> F64.geb s u = false.
Proof.
  intros Htu Hs. apply ltb_not_geb. unfold F64.ltb.
  destruct (SFltb s u) eqn:E; [reflexivity |].
  unfold F64.leb in Htu.
  unfold_cmp. revert Htu Hs E.
  float_cases s; float_cases t; float_cases u; cbn;
    try discriminate; try reflexivity; intros H1 H2 H3; cmp_cases.
Qed.

(** ** Severity classes *)

Ltac score_branch :=
  unfold widthAndMultiplier, getObstacleProperties;
  repeat match goal with
  | H : ?c = _ |- context [if ?c then _ else _] => rewrite H
  end.

(** C6.  The severity mapping of [getObstacleProperties]: a score above zero
    decides alone (at least 9: width 2, multiplier 1.5; from 7 up to 9:
    width 2, 1.2; from 4 up to 7: width 1, 1.3; below 4: width 1, 1.0,
    whatever the label), and a zero score falls back to the label
    (Critical: 2, 1.5; High: 2, 1.2; Medium: 1, 1.3; Low: 1, 1.0;
    Negligible: 1, 0.8). *)
Theorem C6_getObstacleProperties_mapping :
  forall vuln : Vulnerability,
    let s := CVSS vuln in
    let label := Severity vuln in
    (F64.geb s K.f9_0 = true -> widthAndMultiplier vuln = (2, K.f1_5))
    /\ (F64.geb s K.f7_0 = true -> F64.ltb s K.f9_0 = true ->
        widthAndMultiplier vuln = (2, K.f1_2))
    /\ (F64.geb s K.f4_0 = true -> F64.ltb s K.f7_0 = true ->
        widthAndMultiplier vuln = (1, K.f1_3))
    /\ (F64.gtb s K.f0 = true -> F64.ltb s K.f4_0 = true ->
        widthAndMultiplier vuln = (1, K.f1_0))
    /\ (F64.eqb s K.f0 = true -> label = "Critical"%string ->
        widthAndMultiplier vuln = (2, K.f1_5))
    /\ (F64.eqb s K.f0 = true -> label = "High"%string ->
        widthAndMultiplier vuln = (2, K.f1_2))
    /\ (F64.eqb s K.f0 = true -> label = "Medium"%string ->
        widthAndMultiplier vuln = (1, K.f1_3))
    /\ (F64.eqb s K.f0 = true -> label = "Low"%string ->
        widthAndMultiplier vuln = (1, K.f1_0))
    /\ (F64.eqb s K.f0 = true -> label = "Negligible"%string ->
        widthAndMultiplier vuln = (1, K.f0_8)).
Proof.
  intros vuln s label. subst s label.
  assert (P9 : F64.ltb K.f0 K.f9_0 = true) by reflexivity.
  assert (P7 : F64.ltb K.f0 K.f7_0 = true) by reflexivity.
  assert (P4 : F64.ltb K.f0 K.f4_0 = true) by reflexivity.
  repeat match goal with |- _ /\ _ => split end.
  - intros H9. pose proof (geb_positive _ _ P9 H9) as H0.
    score_branch. reflexivity.
  - intros H7 H9. pose proof (geb_positive _ _ P7 H7) as H0.
    apply ltb_not_geb in H9. score_branch. reflexivity.
  - intros H4 H7. pose proof (geb_positive _ _ P4 H4) as H0.
    pose proof (ltb_below (CVSS vuln) K.f7_0 K.f9_0 eq_refl H7) as H9.
    apply ltb_not_geb in H7. score_branch. reflexivity.
  - intros H0 H4.
    pose proof (ltb_below (CVSS vuln) K.f4_0 K.f9_0 eq_refl H4) as H9.
    pose proof (ltb_below (CVSS vuln) K.f4_0 K.f7_0 eq_refl H4) as H7.
    apply ltb_not_geb in H4. score_branch. reflexivity.
  - intros H0 Hl. apply eqb_not_gtb in H0. score_branch. rewrite Hl. reflexivity.
  - intros H0 Hl. apply eqb_not_gtb in H0. score_branch. rewrite Hl. reflexivity.
  - intros H0 Hl. apply eqb_not_gtb in H0. score_branch. rewrite Hl. reflexivity.
  - intros H0 Hl. apply eqb_not_gtb in H0. score_branch. rewrite Hl. reflexivity.
  - intros H0 Hl. apply eqb_not_gtb in H0. score_branch. rewrite Hl. reflexivity.
Qed.

Lemma C6_getObstacleProperties_witness :
  widthAndMultiplier (sample_vuln "CVE-2021-1" "Low" 95) = (2, K.f1_5)
  /\ widthAndMultiplier (sample_vuln "CVE-2021-2" "Medium" 0) = (1, K.f1_3)
  /\ widthAndMultiplier (sample_vuln "CVE-2021-3" "Critical" 0) = (2, K.f1_5).
Proof.
  split; [| split].
  - destruct (C6_getObstacleProperties_mapping (sample_vuln "CVE-2021-1" "Low" 95))
      as (H9 & _). apply H9. reflexivity.
  - destruct (C6_getObstacleProperties_mapping (sample_vuln "CVE-2021-2" "Medium" 0))
      as (_ & _ & _ & _ & _ & _ & Hm & _). apply Hm; reflexivity.
  - destruct (C6_getObstacleProperties_mapping (sample_vuln "CVE-2021-3" "Critical" 0))
      as (_ & _ & _ & _ & Hc & _). apply Hc; reflexivity.
Defined.

(** ** Obstacle generation: one obstacle per vulnerability *)

Section Generation.

Context `{RT : Runtime}.

Lemma generateObstacles_loop_app lanes w n vulns :
  forall i acc,
    generateObstacles_loop lanes w n i vulns acc
    = acc ++ obstaclesFrom lanes w n i vulns.
Proof.
  induction vulns as [| v rest IH]; intros i acc; cbn.
  - now rewrite app_nil_r.
  - rewrite IH, <- app_assoc. reflexivity.
Qed.

Lemma obstaclesFrom_length lanes w n vulns :
  forall i, List.length (obstaclesFrom lanes w n i vulns) = List.length vulns.
Proof.
  induction vulns as [| v rest IH]; intros i; cbn; [reflexivity |].
  now rewrite IH.
Qed.

Lemma obstaclesFrom_nth_error lanes w n vulns :
  forall i k vuln,
    nth_error vulns k = Some vuln ->
    nth_error (obstaclesFrom lanes w n i vulns) k
    = Some (obstacleAt lanes w n (i + Z.of_nat k) vuln).
Proof.
  induction vulns as [| v rest IH]; intros i k vuln Hk.
  - destruct k; discriminate.
  - destruct k as [| k]; cbn in *.
    + injection Hk as ->. now rewrite Z.add_0_r.
    + rewrite (IH (i + 1) k vuln Hk). do 2 f_equal. lia.
Qed.

(** What [generateObstacles] leaves in [m.obstacles]: a function of the
    lanes, the viewport width and the vulnerabilities only. *)
Lemma generateObstacles_obstacles (m : Model) (vulns : list Vulnerability) :
  obstacles (generateObstacles m vulns)
  = match lanes m with
    | [] => []
    | _ :: _ =>
        obstaclesFrom (lanes m) (m_width m) (Z.of_nat (List.length vulns)) 0 vulns
    end.
Proof.
  unfold generateObstacles. cbn.
  destruct (lanes m) as [| l ls] eqn:El; cbn; [reflexivity |].
  now rewrite generateObstacles_loop_app.
Qed.

(** [generateObstacles] writes [m.obstacles] only. *)
Lemma generateObstacles_frame (m : Model) (vulns : list Vulnerability) :
  generateObstacles m vulns
  = set_obstacles (obstacles (generateObstacles m vulns)) m.
Proof.
  unfold generateObstacles. cbn.
  destruct (Z.of_nat (List.length (lanes m)) =? 0); reflexivity.
Qed.

(** The lane index [i % numLanes] always names a lane. *)
Lemma lane_index_in_range (lanes : list lane) (i : nat) :
  lanes <> [] ->
  Z.to_nat (Z.rem (Z.of_nat i) (Z.of_nat (List.length lanes)))
  = (i mod List.length lanes)%nat
  /\ (i mod List.length lanes < List.length lanes)%nat.
Proof.
  intros Hl.
  assert (Hn : List.length lanes <> 0%nat) by (destruct lanes; cbn; congruence).
  split.
  - rewrite Z.rem_mod_nonneg by lia.
    rewrite <- Nat2Z.inj_mod. apply Nat2Z.id.
  - apply Nat.mod_upper_bound. exact Hn.
Qed.

Lemma obstacleAt_fields (lanes : list lane) (w n : Z) (i : nat)
    (vuln : Vulnerability) :
  lanes <> [] ->
  exists ln,
    nth_error lanes (i mod List.length lanes) = Some ln
    /\ y (pos (obstacleAt lanes w n (Z.of_nat i) vuln)) = l_y ln
    /\ cveID (obstacleAt lanes w n (Z.of_nat i) vuln) = ID vuln
    /\ severity (obstacleAt lanes w n (Z.of_nat i) vuln) = CVSS vuln
    /\ severityLabel (obstacleAt lanes w n (Z.of_nat i) vuln) = Severity vuln
    /\ width (obstacleAt lanes w n (Z.of_nat i) vuln)
       = fst (widthAndMultiplier vuln).
Proof.
  intros Hl. destruct (lane_index_in_range lanes i Hl) as [Hidx Hlt].
  exists (nth (i mod List.length lanes) lanes zero_lane). split.
  - apply nth_error_nth'. exact Hlt.
  - unfold obstacleAt, widthAndMultiplier. rewrite Hidx.
    destruct (getObstacleProperties vuln) as [[wd sm] ty]. cbn. tauto.
Qed.

Lemma obstacleAt_x (lanes : list lane) (w n i : Z) (vuln : Vulnerability) :
  x (pos (obstacleAt lanes w n i vuln))
  = let numLanes := Z.of_nat (List.length lanes) in
    if 0 <? direction (nth (Z.to_nat (Z.rem i numLanes)) lanes zero_lane) then
      GoInt.sub (to_int (wrappedX n numLanes i))
        (GoInt.quot (to_int (loopLengthFor n numLanes)) 2)
    else
      GoInt.sub (GoInt.add (to_int (wrappedX n numLanes i)) w)
        (GoInt.quot (to_int (loopLengthFor n numLanes)) 2).
Proof.
  unfold obstacleAt. destruct (getObstacleProperties vuln) as [[wd sm] ty].
  reflexivity.
Qed.

(** The float position starts as the conversion of the integer one. *)
Lemma obstacleAt_floatX (lanes : list lane) (w n i : Z) (vuln : Vulnerability) :
  floatX (obstacleAt lanes w n i vuln)
  = F64.of_int (x (pos (obstacleAt lanes w n i vuln))).
Proof.
  unfold obstacleAt. destruct (getObstacleProperties vuln) as [[wd sm] ty].
  reflexivity.
Qed.

End Generation.

(** C2.  For a non-empty vulnerability list and a non-empty lane list,
    [generateObstacles] leaves exactly one obstacle per vulnerability: the
    i-th obstacle carries the i-th record's id, score and severity label
    (and the width of its severity class) and runs on the row of lane
    [i mod lane_count]; the number of obstacles is the same for every
    viewport size. *)
Theorem C2_generateObstacles_one_per_vulnerability :
  forall (RT : Runtime) (m : Model) (vulns : list Vulnerability),
    (1 <= List.length vulns)%nat ->
    lanes m <> [] ->
    List.length (obstacles (generateObstacles m vulns)) = List.length vulns
    /\ (forall (i : nat) (vuln : Vulnerability),
          nth_error vulns i = Some vuln ->
          exists (obs : obstacle) (ln : lane),
            nth_error (obstacles (generateObstacles m vulns)) i = Some obs
            /\ nth_error (lanes m) (i mod List.length (lanes m)) = Some ln
            /\ y (pos obs) = l_y ln
            /\ cveID obs = ID vuln
            /\ severity obs = CVSS vuln
            /\ severityLabel obs = Severity vuln
            /\ width obs = fst (widthAndMultiplier vuln))
    /\ (forall w h : Z,
          List.length (obstacles (generateObstacles (set_size w h m) vulns))
          = List.length vulns).
Proof.
  intros RT m vulns _ Hl. split; [| split].
  - rewrite generateObstacles_obstacles.
    destruct (lanes m); [congruence |]. apply obstaclesFrom_length.
  - intros i vuln Hi.
    destruct (obstacleAt_fields (lanes m) (m_width m)
                (Z.of_nat (List.length vulns)) i vuln Hl)
      as (ln & Hln & Hy & Hid & Hs & Hlab & Hw).
    eexists. exists ln. split; [| repeat split; eassumption].
    rewrite generateObstacles_obstacles.
    destruct (lanes m) eqn:El; [congruence |].
    rewrite (obstaclesFrom_nth_error _ _ _ _ 0 i vuln Hi). reflexivity.
  - intros w h. rewrite generateObstacles_obstacles. cbn.
    destruct (lanes m); [congruence |]. apply obstaclesFrom_length.
Qed.

Lemma C2_generateObstacles_witness :
  List.length
    (obstacles (@generateObstacles sample_runtime two_lane_model three_vulns))
  = 3%nat.
Proof.
  apply (C2_generateObstacles_one_per_vulnerability sample_runtime
           two_lane_model three_vulns).
  - simpl. lia.
  - discriminate.
Defined.

(** ** The loop length below one obstacle per lane *)

Lemma loopLength_zero (len_vulns numLanes : Z) :
  0 <= len_vulns < numLanes ->
  loopLengthFor len_vulns numLanes = S754_zero false.
Proof.
  intros Hn. unfold loopLengthFor, spacingFor.
  rewrite Z.quot_small by lia.
  destruct (200 <? len_vulns); [reflexivity |].
  destruct (100 <? len_vulns); reflexivity.
Qed.

Lemma Mod_zero_divisor (x : float64) (s : bool) :
  F64.Mod x (S754_zero s) = S754_nan.
Proof. destruct x; reflexivity. Qed.

(** C1.  With fewer vulnerabilities than lanes, [len(vulns)/numLanes] is 0,
    the loop length is 0.0 and [math.Mod(x, loopLength)] is NaN at every
    index: the position the loop wraps is not a number. *)
Theorem C1_wrap_is_nan_below_lane_count :
  forall len_vulns numLanes i : Z,
    0 <= len_vulns < numLanes ->
    F64.is_nan (wrappedX len_vulns numLanes i) = true.
Proof.
  intros n L i Hn. unfold wrappedX.
  rewrite (loopLength_zero n L Hn), Mod_zero_divisor. reflexivity.
Qed.

Lemma C1_wrap_is_nan_witness :
  F64.is_nan (wrappedX 1 8 0) = true.
Proof.
  apply (C1_wrap_is_nan_below_lane_count 1 8 0). lia.
Defined.

(** ** What [startGame] computes *)

Section StartGame.

Context `{RT : Runtime}.

Lemma startLanes_rows : map l_y startLanes = lanePositions.
Proof. reflexivity. Qed.

Lemma startLanes_directions :
  map direction startLanes = [1; -1; 1; -1; 1; -1; 1; -1].
Proof. reflexivity. Qed.

Lemma startLanes_nonempty : startLanes <> [].
Proof. discriminate. Qed.

Lemma startGame_obstacles (now : Z) (m : Model) (vulns : list Vulnerability) :
  obstacles (startGame now m vulns)
  = obstaclesFrom startLanes (m_width m) (Z.of_nat (List.length vulns)) 0 vulns.
Proof.
  unfold startGame.
  set (m1 := set_lanes _ _).
  assert (E : obstacles (generateObstacles m1 vulns)
              = obstaclesFrom startLanes (m_width m)
                  (Z.of_nat (List.length vulns)) 0 vulns).
  { rewrite generateObstacles_obstacles. subst m1.
    change (lanes (set_lanes ?l _)) with l.
    fold startLanes. destruct startLanes eqn:El.
    - now destruct startLanes_nonempty.
    - reflexivity. }
  destruct (Z.of_nat (List.length vulns) =? 0); exact E.
Qed.

Lemma startGame_state (now : Z) (m : Model) (vulns : list Vulnerability) :
  state (startGame now m vulns) = statePlaying.
Proof.
  unfold startGame. set (m1 := set_lanes _ _).
  rewrite (generateObstacles_frame m1 vulns).
  destruct (Z.of_nat (List.length vulns) =? 0); reflexivity.
Qed.

Lemma startGame_frog (now : Z) (m : Model) (vulns : list Vulnerability) :
  frog (startGame now m vulns)
  = {| x := GoInt.quot (m_width m) 2; y := gameAreaHeight - 1 |}.
Proof.
  unfold startGame. set (m1 := set_lanes _ _).
  rewrite (generateObstacles_frame m1 vulns).
  destruct (Z.of_nat (List.length vulns) =? 0); reflexivity.
Qed.

Lemma startGame_width (now : Z) (m : Model) (vulns : list Vulnerability) :
  m_width (startGame now m vulns) = m_width m.
Proof.
  unfold startGame. set (m1 := set_lanes _ _).
  rewrite (generateObstacles_frame m1 vulns).
  destruct (Z.of_nat (List.length vulns) =? 0); reflexivity.
Qed.

Lemma startGame_loadedVulns (now : Z) (m : Model) (vulns : list Vulnerability) :
  loadedVulns (startGame now m vulns) = loadedVulns m.
Proof.
  unfold startGame. set (m1 := set_lanes _ _).
  rewrite (generateObstacles_frame m1 vulns).
  destruct (Z.of_nat (List.length vulns) =? 0); reflexivity.
Qed.

Lemma startLanes_count : Z.of_nat (List.length startLanes) = 8.
Proof. vm_compute; reflexivity. Qed.

Lemma wrappedX_single : wrappedX 1 8 0 = S754_nan.
Proof. vm_compute; reflexivity. Qed.

Lemma loopLength_single : loopLengthFor 1 8 = S754_zero false.
Proof. vm_compute; reflexivity. Qed.

Lemma first_lane_direction :
  direction (nth (Z.to_nat (Z.rem 0 8)) startLanes zero_lane) = 1.
Proof. vm_compute; reflexivity. Qed.

Lemma to_int_zero : to_int (S754_zero false) = 0.
Proof. reflexivity. Qed.

Lemma to_int_nan : to_int S754_nan = GoInt.wrap (conv_undefined S754_nan).
Proof. reflexivity. Qed.

(** One vulnerability on the eight lanes of [startGame].  The obstacle starts wherever the platform's conversion
    of NaN puts it. *)
Lemma obstacleAt_single_vulnerability (w : Z) (vuln : Vulnerability) :
  x (pos (obstacleAt startLanes w 1 0 vuln))
  = GoInt.wrap (conv_undefined S754_nan)
  /\ floatX (obstacleAt startLanes w 1 0 vuln)
     = F64.of_int (GoInt.wrap (conv_undefined S754_nan)).
Proof.
  assert (Ex : x (pos (obstacleAt startLanes w 1 0 vuln))
               = GoInt.wrap (conv_undefined S754_nan)).
  { rewrite obstacleAt_x. cbv zeta.
    rewrite startLanes_count, wrappedX_single, loopLength_single,
      first_lane_direction, to_int_zero, to_int_nan.
    replace (GoInt.quot 0 2) with 0 by (vm_compute; reflexivity).
    cbn [Z.ltb Z.compare]. unfold GoInt.sub.
    rewrite Z.sub_0_r. apply wrap_in_range, wrap_is_in_range. }
  split; [exact Ex |]. rewrite obstacleAt_floatX, Ex. reflexivity.
Qed.

Lemma startGame_single_vulnerability (now : Z) (m : Model) (vuln : Vulnerability) :
  obstacles (startGame now m [vuln])
  = [obstacleAt startLanes (m_width m) 1 0 vuln].
Proof. rewrite startGame_obstacles. reflexivity. Qed.

End StartGame.

(** ** Restart against a fresh load *)

Section Restart.

Context `{RT : Runtime}.

Lemma restartGame_eq (now : Z) (m : Model) :
  restartGame now m
  = (startGame now (resetModel now m) (loadedVulns m), cmdTick).
Proof.
  unfold restartGame, resetModel. cbv zeta.
  match goal with
  | |- (startGame _ _ ?a, _) = (startGame _ _ ?b, _) => change a with b
  end.
  reflexivity.
Qed.

Lemma restartGame_obstacles (now : Z) (m : Model) :
  obstacles (fst (restartGame now m))
  = obstaclesFrom startLanes (m_width m)
      (Z.of_nat (List.length (loadedVulns m))) 0 (loadedVulns m).
Proof.
  rewrite restartGame_eq. cbn [fst].
  now rewrite startGame_obstacles.
Qed.

Lemma load_obstacles (now : Z) (m : Model) (vulns : list Vulnerability) :
  obstacles (fst (Update now m (vulnerabilitiesLoadedMsg vulns)))
  = obstaclesFrom startLanes (m_width m)
      (Z.of_nat (List.length vulns)) 0 vulns.
Proof. cbn [Update fst]. now rewrite startGame_obstacles. Qed.

(** A restart key in a terminal state is [restartGame]. *)
Lemma handleKeyPress_restart (now : Z) (m : Model) (key : string) :
  state m = stateGameOver \/ state m = stateVictory ->
  key = "enter"%string \/ key = " "%string ->
  handleKeyPress now m key = restartGame now m.
Proof.
  intros Hs Hk. unfold handleKeyPress.
  destruct Hs as [-> | ->]; destruct Hk as [-> | ->]; reflexivity.
Qed.

End Restart.

(** C4.  Obstacle generation is a function of the vulnerability list, the
    lane list and the viewport width: two models that agree on lanes and
    width get the same obstacles, whatever else they hold; and a restart
    from the cached list builds the field a fresh load of that list builds
    at the same width. *)
Theorem C4_generation_is_deterministic :
  forall (RT : Runtime) (m1 m2 : Model) (vulns : list Vulnerability)
         (now1 now2 : Z),
    m_width m1 = m_width m2 ->
    (lanes m1 = lanes m2 ->
     obstacles (generateObstacles m1 vulns)
     = obstacles (generateObstacles m2 vulns))
    /\ (loadedVulns m1 = vulns ->
        obstacles (fst (restartGame now1 m1))
        = obstacles (fst (Update now2 m2 (vulnerabilitiesLoadedMsg vulns)))).
Proof.
  intros RT m1 m2 vulns now1 now2 Hw. split.
  - intros Hl. rewrite !generateObstacles_obstacles, Hl, Hw. reflexivity.
  - intros Hv. rewrite restartGame_obstacles, load_obstacles, Hv, Hw.
    reflexivity.
Qed.

Lemma played_model_lost : state played_model = stateGameOver.
Proof. vm_compute. reflexivity. Qed.

Lemma C4_generation_witness :
  obstacles (fst (@restartGame sample_runtime 5000000000 played_model))
  = obstacles (fst (@Update sample_runtime 0 fresh_model
                      (vulnerabilitiesLoadedMsg sixteen_vulns))).
Proof.
  apply (C4_generation_is_deterministic sample_runtime played_model fresh_model
           sixteen_vulns 5000000000 0); vm_compute; reflexivity.
Defined.

(** C7.  In GameOver and in Victory, enter or space re-enters Playing from
    the cached vulnerability list: the list is kept, the command returned is
    the tick alone (no run of [GetVulnerabilities]), and the obstacles are
    those a fresh load of the cached list builds at the same width. *)
Theorem C7_restart_reuses_cached_vulnerabilities :
  forall (RT : Runtime) (now : Z) (m : Model) (key : string),
    state m = stateGameOver \/ state m = stateVictory ->
    key = "enter"%string \/ key = " "%string ->
    state (fst (handleKeyPress now m key)) = statePlaying
    /\ loadedVulns (fst (handleKeyPress now m key)) = loadedVulns m
    /\ snd (handleKeyPress now m key) = cmdTick
    /\ fetches (snd (handleKeyPress now m key)) = 0%nat
    /\ (forall (now' : Z) (fresh : Model),
          m_width fresh = m_width m ->
          obstacles (fst (handleKeyPress now m key))
          = obstacles (fst (Update now' fresh
                              (vulnerabilitiesLoadedMsg (loadedVulns m))))).
Proof.
  intros RT now m key Hs Hk.
  rewrite (handleKeyPress_restart now m key Hs Hk).
  split; [| split; [| split; [| split]]].
  - rewrite restartGame_eq. apply startGame_state.
  - rewrite restartGame_eq. cbn [fst]. now rewrite startGame_loadedVulns.
  - now rewrite restartGame_eq.
  - now rewrite restartGame_eq.
  - intros now' fresh Hf.
    now rewrite restartGame_obstacles, load_obstacles, Hf.
Qed.

Lemma C7_restart_witness :
  state (fst (@handleKeyPress sample_runtime 5000000000 played_model "enter"))
  = statePlaying.
Proof.
  apply (C7_restart_reuses_cached_vulnerabilities sample_runtime 5000000000
           played_model "enter").
  - left. vm_compute. reflexivity.
  - left. reflexivity.
Defined.

(** ** The physics step: wrap and bounds *)

Section Physics.

Context `{RT : Runtime}.

Lemma moveObstacle_rel (W : Z) (delta : float64) (o : obstacle) :
  viewport_ok W -> width_ok o -> tick_rel W o (moveObstacle W delta o).
Proof.
  unfold viewport_ok, width_ok, tick_rel, moveObstacle. intros HW Hw.
  unfold GoInt.neg.
  rewrite (wrap_in_range (- width o))
    by (unfold GoInt.in_range, GoInt.min_int, GoInt.max_int in *; lia).
  unfold GoInt.sub, GoInt.add.
  rewrite (wrap_in_range (- width o - 5))
    by (unfold GoInt.in_range, GoInt.min_int, GoInt.max_int in *; lia).
  rewrite (wrap_in_range (W + 5))
    by (unfold GoInt.in_range, GoInt.min_int, GoInt.max_int in *; lia).
  set (fx := F64.add _ _).
  destruct (Z.ltb_spec (to_int fx) (- width o - 5)) as [Hlo | Hlo].
  - cbn. repeat split; try lia; try (now left).
  - destruct (Z.ltb_spec (W + 5) (to_int fx)) as [Hhi | Hhi].
    + cbn. repeat split; try lia; try (now left).
    + cbn. repeat split; try lia; try (now right).
Qed.

Lemma tick_rel_trans (W : Z) (a b c : obstacle) :
  tick_rel W a b -> tick_rel W b c -> tick_rel W a c.
Proof.
  unfold tick_rel. intros (?&?&?&?&?&?&?&?) (?&?&?&?&?&?&?&?).
  repeat split; try congruence; try lia; assumption.
Qed.

Lemma tick_rel_width_ok (W : Z) (o o' : obstacle) :
  tick_rel W o o' -> width_ok o -> width_ok o'.
Proof. unfold tick_rel, width_ok. intros (_ & -> & _) H. exact H. Qed.

Lemma collide_loop_obstacles (m : Model) (l : list obstacle) :
  obstacles (collide_loop m l) = obstacles m
  /\ m_width (collide_loop m l) = m_width m
  /\ frog (collide_loop m l) = frog m.
Proof.
  induction l as [| o l IH]; cbn; [tauto |].
  destruct (checkCollision (frog m) o); [cbn; tauto | exact IH].
Qed.

Lemma updateGame_obstacles (now : Z) (m : Model) :
  obstacles (updateGame now m)
  = map (moveObstacle (m_width m)
           (Time.Seconds (Time.Sub now (lastUpdate m))))
        (obstacles m).
Proof.
  unfold updateGame. cbv zeta.
  match goal with
  | |- obstacles (collide_loop ?M ?L) = _ =>
      rewrite (proj1 (collide_loop_obstacles M L))
  end.
  destruct (isZeroVulnGame _); reflexivity.
Qed.

Lemma updateGame_width (now : Z) (m : Model) :
  m_width (updateGame now m) = m_width m.
Proof.
  unfold updateGame. cbv zeta.
  match goal with
  | |- m_width (collide_loop ?M ?L) = _ =>
      rewrite (proj1 (proj2 (collide_loop_obstacles M L)))
  end.
  destruct (isZeroVulnGame _); reflexivity.
Qed.

Lemma updateGame_frog (now : Z) (m : Model) :
  frog (updateGame now m) = frog m.
Proof.
  unfold updateGame. cbv zeta.
  match goal with
  | |- frog (collide_loop ?M ?L) = _ =>
      rewrite (proj2 (proj2 (collide_loop_obstacles M L)))
  end.
  destruct (isZeroVulnGame _); reflexivity.
Qed.

Lemma updateGame_rel (now : Z) (m : Model) :
  viewport_ok (m_width m) ->
  Forall width_ok (obstacles m) ->
  Forall2 (tick_rel (m_width m)) (obstacles m) (obstacles (updateGame now m)).
Proof.
  intros HW Hall. rewrite updateGame_obstacles.
  induction Hall as [| o l Ho Hl IH]; cbn; constructor.
  - apply moveObstacle_rel; assumption.
  - exact IH.
Qed.

Lemma Forall2_tick_rel_trans (W : Z) (l1 l2 l3 : list obstacle) :
  Forall2 (tick_rel W) l1 l2 -> Forall2 (tick_rel W) l2 l3 ->
  Forall2 (tick_rel W) l1 l3.
Proof.
  intros H12. revert l3.
  induction H12 as [| a b l1 l2 Hab _ IH]; intros l3 H23.
  - inversion H23. constructor.
  - inversion H23 as [| b' c l2' l3' Hbc Hrest]; subst.
    constructor; [eapply tick_rel_trans; eassumption | apply IH; assumption].
Qed.

Lemma Forall2_tick_rel_width_ok (W : Z) (l1 l2 : list obstacle) :
  Forall2 (tick_rel W) l1 l2 -> Forall width_ok l1 -> Forall width_ok l2.
Proof.
  induction 1 as [| a b l1 l2 Hab _ IH]; intros Hall; [constructor |].
  inversion Hall; subst.
  constructor; [eapply tick_rel_width_ok; eassumption | auto].
Qed.

Lemma ticks_rel (nows : list Z) :
  forall m : Model,
    nows <> [] ->
    viewport_ok (m_width m) ->
    Forall width_ok (obstacles m) ->
    Forall2 (tick_rel (m_width m)) (obstacles m) (obstacles (ticks m nows)).
Proof.
  induction nows as [| now rest IH]; intros m Hne HW Hall; [congruence |].
  cbn [ticks].
  pose proof (updateGame_rel now m HW Hall) as Hstep.
  destruct rest as [| now' rest'].
  - exact Hstep.
  - eapply Forall2_tick_rel_trans; [exact Hstep |].
    rewrite <- (updateGame_width now m).
    apply IH.
    + discriminate.
    + now rewrite updateGame_width.
    + eapply Forall2_tick_rel_width_ok; eassumption.
Qed.

End Physics.

(** C9.  After every tick of a run of physics updates, each obstacle's
    integer position lies between minus (its width plus 5) and the viewport
    width plus 5; the ticks, with every wrap among them, change nothing of an
    obstacle but its position (velocity, width, lane row and vulnerability
    data stay); and a wrap leaves no residue: after each tick the integer
    position is the truncation of the float position, or the float position
    is exactly the edge the obstacle was teleported to. *)
Theorem C9_wrap_keeps_obstacles_in_bounds :
  forall (RT : Runtime) (m : Model) (nows : list Z),
    nows <> [] ->
    0 <= m_width m <= GoInt.max_int - 5 ->
    Forall (fun o => 0 <= width o <= GoInt.max_int - 5) (obstacles m) ->
    Forall2
      (fun o o' =>
         speed o' = speed o
         /\ width o' = width o
         /\ y (pos o') = y (pos o)
         /\ cveID o' = cveID o
         /\ severity o' = severity o
         /\ severityLabel o' = severityLabel o
         /\ - (width o' + 5) <= x (pos o') <= m_width m + 5
         /\ (floatX o' = F64.of_int (x (pos o'))
             \/ x (pos o') = to_int (floatX o')))
      (obstacles m) (obstacles (ticks m nows)).
Proof.
  intros RT m nows Hne HW Hall.
  exact (ticks_rel nows m Hne HW Hall).
Qed.

Lemma width_ok_check (l : list obstacle) :
  forallb (fun o => (0 <=? width o) && (width o <=? GoInt.max_int - 5)) l = true ->
  Forall (fun o => 0 <= width o <= GoInt.max_int - 5) l.
Proof.
  intros H. apply Forall_forall. intros o Ho.
  rewrite forallb_forall in H. specialize (H o Ho).
  apply andb_true_iff in H. destruct H as [H1 H2].
  apply Z.leb_le in H1, H2. split; assumption.
Qed.

Lemma C9_wrap_witness :
  Forall2
    (fun o o' =>
       speed o' = speed o
       /\ width o' = width o
       /\ y (pos o') = y (pos o)
       /\ cveID o' = cveID o
       /\ severity o' = severity o
       /\ severityLabel o' = severityLabel o
       /\ - (width o' + 5) <= x (pos o') <= m_width loaded_model + 5
       /\ (floatX o' = F64.of_int (x (pos o'))
           \/ x (pos o') = @to_int sample_runtime (floatX o')))
    (obstacles loaded_model)
    (obstacles (@ticks sample_runtime loaded_model four_ticks)).
Proof.
  assert (H1 : four_ticks <> []) by discriminate.
  assert (H2 : 0 <= m_width loaded_model <= GoInt.max_int - 5)
    by (vm_compute; split; discriminate).
  assert (H3 : Forall (fun o => 0 <= width o <= GoInt.max_int - 5)
                 (obstacles loaded_model))
    by (apply width_ok_check; vm_compute; reflexivity).
  exact (C9_wrap_keeps_obstacles_in_bounds sample_runtime loaded_model
           four_ticks H1 H2 H3).
Defined.

(** The float position is not held by the bound of the integer position: a
    tick 3.45 seconds after the load leaves the first obstacle at integer
    position 85, the upper bound at 80 columns, with a float position of
    about 85.275. *)
Lemma C9_float_position_counterexample :
  ~ Forall
      (fun o' =>
         F64.leb (F64.of_int (- (width o' + 5))) (floatX o') = true
         /\ F64.leb (floatX o') (F64.of_int (m_width loaded_model + 5)) = true)
      (obstacles (@updateGame sample_runtime 3450000000 loaded_model)).
Proof.
  intros H. rewrite Forall_forall in H.
  set (l := obstacles (@updateGame sample_runtime 3450000000 loaded_model)) in *.
  assert (Hlen : (0 < List.length l)%nat) by (vm_compute; lia).
  destruct (H (nth 0 l sample_obstacle) (nth_In l sample_obstacle Hlen))
    as [_ Hle].
  assert (Hf : F64.leb (floatX (nth 0 l sample_obstacle))
                 (F64.of_int (m_width loaded_model + 5)) = false)
    by (vm_compute; reflexivity).
  congruence.
Qed.

(** ** The first-move record *)

Section Movement.

Context `{RT : Runtime}.

Lemma noteMove_frame (now : Z) (m : Model) :
  frog (noteMove now m) = frog m
  /\ m_width (noteMove now m) = m_width m
  /\ m_height (noteMove now m) = m_height m
  /\ state (noteMove now m) = state m
  /\ obstacles (noteMove now m) = obstacles m.
Proof. unfold noteMove. destruct (hasMoved m); cbn; tauto. Qed.

End Movement.

(** ** The game without vulnerabilities *)

Section ZeroVulnerabilities.

Context `{RT : Runtime}.

Lemma decorativeItemAt_ext (m1 m2 : Model) (i : Z) :
  frog m1 = frog m2 -> m_width m1 = m_width m2 ->
  decorativeItemAt m1 i = decorativeItemAt m2 i.
Proof. unfold decorativeItemAt. intros -> ->. reflexivity. Qed.

(** The base model of the items: [startGame]'s frog and width. *)
Lemma startGame_empty (now : Z) (m : Model) :
  isZeroVulnGame (startGame now m []) = true
  /\ obstacles (startGame now m []) = []
  /\ decorativeItems (startGame now m [])
     = map (fun i => decorativeItemAt (startGame now m []) (Z.of_nat i))
         (seq 0 12).
Proof.
  split; [reflexivity | split].
  - rewrite startGame_obstacles. reflexivity.
  - unfold startGame. cbn [List.length Z.of_nat Z.eqb].
    set (m1 := set_lanes _ _).
    rewrite (generateObstacles_frame m1 []).
    cbn [decorativeItems set_lastUpdate initializeDecorativeItems
           set_decorativeItems].
    apply map_ext. intros i. apply decorativeItemAt_ext; reflexivity.
Qed.

Lemma item_x_exact (W i : Z) :
  0 <= i < 12 ->
  0 <= W <= 2 ^ 59 ->
  GoInt.sub (GoInt.add (GoInt.quot (GoInt.mul i W) 12) (Z.rem i 3)) 1
  = i * W / 12 + i mod 3 - 1.
Proof.
  intros Hi HW.
  assert (H59 : 2 ^ 59 = 576460752303423488) by reflexivity.
  rewrite H59 in HW.
  assert (Hp : 0 <= i * W <= 6341068275337658368) by nia.
  set (p := i * W) in *.
  assert (Hq : 0 <= p / 12 <= p)
    by (split; [apply Z.div_pos; lia | apply Z.div_le_upper_bound; lia]).
  assert (Hr : 0 <= i mod 3 < 3) by (apply Z.mod_pos_bound; lia).
  unfold GoInt.mul, GoInt.quot, GoInt.add, GoInt.sub. fold p.
  rewrite (wrap_in_range p)
    by (unfold GoInt.in_range, GoInt.min_int, GoInt.max_int; lia).
  rewrite Z.quot_div_nonneg by lia.
  rewrite Z.rem_mod_nonneg by lia.
  rewrite (wrap_in_range (p / 12))
    by (unfold GoInt.in_range, GoInt.min_int, GoInt.max_int; lia).
  rewrite (wrap_in_range (p / 12 + i mod 3))
    by (unfold GoInt.in_range, GoInt.min_int, GoInt.max_int; lia).
  apply wrap_in_range.
  unfold GoInt.in_range, GoInt.min_int, GoInt.max_int. lia.
Qed.

Lemma item_symbol_in_palette (i : Z) :
  0 <= i < 12 ->
  In (nth (Z.to_nat (Z.rem i (Z.of_nat (List.length symbols)))) symbols
        EmptyString) palette.
Proof.
  intros Hi.
  assert (Hcases : i = 0 \/ i = 1 \/ i = 2 \/ i = 3 \/ i = 4 \/ i = 5 \/ i = 6
                   \/ i = 7 \/ i = 8 \/ i = 9 \/ i = 10 \/ i = 11) by lia.
  repeat destruct Hcases as [-> | Hcases]; try subst i; vm_compute; tauto.
Qed.

Lemma decorativeItemAt_spec (m : Model) (i : Z) :
  0 <= i < 12 ->
  0 <= m_width m <= 2 ^ 59 ->
  y (frog m) = gameAreaHeight - 1 ->
  d_x (decorativeItemAt m i) = i * m_width m / 12 + i mod 3 - 1
  /\ d_y (decorativeItemAt m i) = i + 1
  /\ In (symbol (decorativeItemAt m i)) palette.
Proof.
  intros Hi HW Hy. unfold decorativeItemAt. cbn [d_x d_y symbol].
  rewrite Hy, (item_x_exact (m_width m) i Hi HW).
  unfold gameAreaHeight.
  replace (Z.rem i (20 - 2)) with i by (rewrite Z.rem_small; lia).
  replace (1 + i =? 20 - 1) with false by (symmetry; apply Z.eqb_neq; lia).
  cbn [andb]. split; [reflexivity | split; [lia |]].
  apply item_symbol_in_palette. exact Hi.
Qed.

End ZeroVulnerabilities.

(** ** The way to the finish line without obstacles *)

Section FinishLine.

Context `{RT : Runtime}.

Lemma is_up_cases (key : string) :
  is_up key = true -> key = "up"%string \/ key = "w"%string.
Proof.
  unfold is_up, key_in. cbn [existsb]. rewrite !orb_true_iff, !String.eqb_eq.
  intros [H | [H | H]]; [now left | now right | discriminate].
Qed.

Lemma updateGame_no_obstacles (now : Z) (m : Model) :
  obstacles m = [] -> state (updateGame now m) = state m.
Proof.
  intros H. unfold updateGame. cbv zeta.
  cbn [obstacles set_obstacles set_lastUpdate m_width isZeroVulnGame
         decorativeItems].
  rewrite H. cbn [map].
  destruct (isZeroVulnGame m); reflexivity.
Qed.

Lemma up_key_step (now : Z) (m : Model) (key : string) :
  state m = statePlaying ->
  is_up key = true ->
  1 <= y (frog m) <= 19 ->
  obstacles (fst (handleKeyPress now m key)) = obstacles m
  /\ y (frog (fst (handleKeyPress now m key))) = y (frog m) - 1
  /\ state (fst (handleKeyPress now m key))
     = if y (frog m) =? 1 then stateVictory else statePlaying.
Proof.
  intros Hs Hk Hy. unfold handleKeyPress. rewrite Hs.
  assert (Hsub : GoInt.sub (y (frog m)) 1 = y (frog m) - 1).
  { unfold GoInt.sub. apply wrap_in_range.
    unfold GoInt.in_range, GoInt.min_int, GoInt.max_int. lia. }
  assert (Hpos : (0 <? y (frog m)) = true) by (apply Z.ltb_lt; lia).
  destruct (noteMove_frame now
              (set_frog {| x := x (frog m); y := y (frog m) - 1 |} m))
    as (Hf & _ & _ & Hst & Hobs).
  cbn [frog state obstacles set_frog] in Hf, Hst, Hobs.
  destruct (is_up_cases key Hk) as [-> | ->];
    cbn [key_in existsb String.eqb Ascii.eqb Bool.eqb orb andb];
    rewrite Hpos, Hsub, Hf; cbn [y];
    destruct (Z.eqb_spec (y (frog m) - 1) 0) as [E | E];
    destruct (Z.eqb_spec (y (frog m)) 1) as [E1 | E1]; try lia;
    cbn [fst obstacles set_state frog state];
    rewrite ?Hf, ?Hst, ?Hobs; cbn [y]; auto.
Qed.

(** Victory stays under ticks and "up" keys. *)
Lemma victory_stays (events : list (Z * Msg)) :
  forall m : Model,
    state m = stateVictory ->
    forallb tick_or_up events = true ->
    state (run m events) = stateVictory.
Proof.
  induction events as [| [now msg] rest IH]; intros m Hs Hev; [exact Hs |].
  cbn [forallb] in Hev. apply andb_true_iff in Hev. destruct Hev as [Hev Hrest].
  cbn [run]. apply IH; [| exact Hrest].
  unfold tick_or_up in Hev. cbn [snd] in Hev.
  destruct msg; try discriminate; cbn [Update].
  - unfold handleKeyPress. rewrite Hs.
    destruct (is_up_cases key Hev) as [-> | ->]; exact Hs.
  - rewrite Hs. exact Hs.
Qed.

(** From row [k] of an obstacle-free board: the game is won as soon as
    [k] "up" keys have arrived, is still being played before that, and is
    never lost. *)
Lemma obstacle_free_walk (events : list (Z * Msg)) :
  forall (m : Model) (k : Z),
    obstacles m = [] ->
    state m = statePlaying ->
    y (frog m) = k ->
    1 <= k <= 19 ->
    forallb tick_or_up events = true ->
    state (run m events)
    = if k <=? ups events then stateVictory else statePlaying.
Proof.
  induction events as [| [now msg] rest IH]; intros m k Hobs Hs Hy Hk Hev.
  - cbn. replace (k <=? 0) with false by (symmetry; apply Z.leb_gt; lia).
    exact Hs.
  - cbn [forallb] in Hev. apply andb_true_iff in Hev.
    destruct Hev as [Hev Hrest].
    unfold tick_or_up in Hev. cbn [snd] in Hev.
    cbn [run]. destruct msg; try discriminate; cbn [Update].
    + destruct (up_key_step now m key Hs Hev ltac:(lia))
        as (Hobs' & Hy' & Hs').
      unfold ups. cbn [filter is_key snd List.length].
      rewrite Nat2Z.inj_succ. fold (ups rest).
      set (m' := fst (handleKeyPress now m key)) in *.
      revert Hs'. destruct (Z.eqb_spec (y (frog m)) 1) as [E1 | E1]; intros Hs'.
      * rewrite (victory_stays rest m' Hs' Hrest).
        replace (k <=? Z.succ (ups rest)) with true
          by (symmetry; apply Z.leb_le; unfold ups; lia).
        reflexivity.
      * assert (Hobs1 : obstacles m' = []) by congruence.
        assert (Hy1 : y (frog m') = k - 1) by lia.
        assert (Hk1 : 1 <= k - 1 <= 19) by lia.
        rewrite (IH m' (k - 1) Hobs1 Hs' Hy1 Hk1 Hrest).
        destruct (Z.leb_spec (k - 1) (ups rest));
          destruct (Z.leb_spec k (Z.succ (ups rest))); try lia; reflexivity.
    + rewrite Hs. cbn [fst].
      unfold ups. cbn [filter is_key snd]. fold (ups rest).
      apply IH; try assumption.
      * rewrite updateGame_obstacles, Hobs. reflexivity.
      * rewrite updateGame_no_obstacles; assumption.
      * rewrite updateGame_frog. exact Hy.
Qed.

End FinishLine.

(** C8 (as the code has it).  With an empty vulnerability list [startGame]
    marks the game as a zero-vulnerability game, generates no obstacle and
    creates exactly 12 decorative items; item [i] sits on row [i + 1], off
    the frog's spawn cell, at column [i * width / 12 + i mod 3 - 1] (the
    twelfths of the viewport width, staggered by -1, 0 or +1 cell, so less
    than two cells from the even grid); its symbol comes from the palette of
    three.  From that state ticks and "up" keys lead to Victory exactly when
    19 "up" keys have arrived, and never to GameOver. *)
Theorem C8_zero_vulnerabilities_decorative_mode :
  forall (RT : Runtime) (now : Z) (m : Model),
    0 <= m_width m <= 2 ^ 59 ->
    isZeroVulnGame (startGame now m []) = true
    /\ obstacles (startGame now m []) = []
    /\ List.length (decorativeItems (startGame now m [])) = 12%nat
    /\ (forall (i : nat) (d : decorativeItem),
          nth_error (decorativeItems (startGame now m [])) i = Some d ->
          d_x d = Z.of_nat i * m_width m / 12 + Z.of_nat i mod 3 - 1
          /\ Z.of_nat i * m_width m - 23 <= 12 * d_x d
             <= Z.of_nat i * m_width m + 12
          /\ d_y d = Z.of_nat i + 1
          /\ (d_x d, d_y d)
             <> (x (frog (startGame now m [])), y (frog (startGame now m [])))
          /\ In (symbol d) palette)
    /\ (forall events : list (Z * Msg),
          forallb tick_or_up events = true ->
          state (run (startGame now m []) events)
          = if 19 <=? ups events then stateVictory else statePlaying).
Proof.
  intros RT now m HW.
  destruct (startGame_empty now m) as (Hz & Ho & Hd).
  split; [exact Hz | split; [exact Ho | split; [| split]]].
  - rewrite Hd, length_map, length_seq. reflexivity.
  - intros i d Hi.
    assert (Hlt : (i < 12)%nat).
    { assert (Hn : nth_error (decorativeItems (startGame now m [])) i <> None)
        by congruence.
      apply nth_error_Some in Hn.
      rewrite Hd, length_map, length_seq in Hn. exact Hn. }
    rewrite Hd in Hi.
    rewrite nth_error_map, nth_error_seq in Hi.
    apply Nat.ltb_lt in Hlt. rewrite Hlt in Hi. cbn in Hi.
    apply Nat.ltb_lt in Hlt.
    injection Hi as <-.
    assert (Hfrog : y (frog (startGame now m [])) = gameAreaHeight - 1)
      by (rewrite startGame_frog; reflexivity).
    destruct (decorativeItemAt_spec (startGame now m []) (Z.of_nat i)
                ltac:(lia)
                ltac:(rewrite startGame_width; exact HW) Hfrog)
      as (Hx & Hy & Hs).
    rewrite startGame_width in Hx.
    split; [exact Hx | split; [| split; [exact Hy | split; [| exact Hs]]]].
    + rewrite Hx. set (p := Z.of_nat i * m_width m).
      pose proof (Z.div_mod p 12 ltac:(lia)).
      pose proof (Z.mod_pos_bound p 12 ltac:(lia)).
      pose proof (Z.mod_pos_bound (Z.of_nat i) 3 ltac:(lia)). lia.
    + intros E. apply (f_equal snd) in E. cbn [snd] in E.
      rewrite Hy, Hfrog in E. unfold gameAreaHeight in E. lia.
  - intros events Hev.
    apply obstacle_free_walk; try assumption.
    + apply startGame_state.
    + rewrite startGame_frog. reflexivity.
    + lia.
Qed.

Lemma C8_zero_vulnerabilities_witness :
  state (@run sample_runtime (@startGame sample_runtime 0 fresh_model [])
           (repeat (1000, KeyMsg "up") 19))
  = stateVictory.
Proof.
  assert (HW : 0 <= m_width fresh_model <= 2 ^ 59)
    by (vm_compute; split; discriminate).
  destruct (C8_zero_vulnerabilities_decorative_mode sample_runtime 0
              fresh_model HW) as (_ & _ & _ & _ & Hwalk).
  rewrite Hwalk; vm_compute; reflexivity.
Defined.

(** At 80 columns the items stand at columns -1, 6, 14, 19, ...: the first
    gap is 7, the second 8.  The positions are not evenly spaced. *)
Lemma C8_even_spacing_counterexample :
  ~ exists gap : Z,
      forall i : nat,
        (i < 11)%nat ->
        nth (S i)
          (map d_x (decorativeItems (@startGame sample_runtime 0 fresh_model [])))
          0
        - nth i
            (map d_x (decorativeItems (@startGame sample_runtime 0 fresh_model [])))
            0
        = gap.
Proof.
  intros [gap H].
  pose proof (H 0%nat ltac:(lia)) as H0.
  pose proof (H 1%nat ltac:(lia)) as H1.
  vm_compute in H0, H1. congruence.
Qed.

(** ** One second in one tick and in ten, on the sample game

    Frame-rate independence holds up to rounding only: the second obstacle
    of the sample game (which does not wrap during that second) ends on the
    same cell either way, at float positions that differ, by less than
    2^-40 of a cell. *)
Lemma frame_rate_sample :
  sample_floatX one_tick 1 <> sample_floatX ten_ticks 1
  /\ F64.ltb (F64.abs (F64.sub (sample_floatX one_tick 1)
                               (sample_floatX ten_ticks 1)))
             (F64.lit 1 (2 ^ 40)) = true
  /\ @to_int sample_runtime (sample_floatX one_tick 1)
     = @to_int sample_runtime (sample_floatX ten_ticks 1).
Proof.
  split; [| split].
  - intros E.
    assert (D : F64.eqb (sample_floatX one_tick 1) (sample_floatX ten_ticks 1)
                = false) by (vm_compute; reflexivity).
    rewrite E in D.
    assert (R : F64.eqb (sample_floatX ten_ticks 1) (sample_floatX ten_ticks 1)
                = true) by (vm_compute; reflexivity).
    congruence.
  - vm_compute. reflexivity.
  - vm_compute. reflexivity.
Qed.

(** ** The collision check of a tick *)

Section TickCollision.

Context `{RT : Runtime}.

(** The loop stops at the first obstacle, in list order, that the frog
    overlaps. *)
Lemma collide_loop_first_hit (m : Model) (l : list obstacle) :
  collide_loop m l
  = match find (checkCollision (frog m)) l with
    | Some obs =>
        set_collision (cveID obs) (formatCollisionMessage obs) (Some obs)
          (set_state stateGameOver m)
    | None => m
    end.
Proof.
  induction l as [| o l IH]; cbn [collide_loop find]; [reflexivity |].
  destruct (checkCollision (frog m) o); [reflexivity | exact IH].
Qed.

(** The model [updateGame] hands to the collision loop. *)
Lemma updateGame_as_loop (now : Z) (m : Model) :
  exists m' : Model,
    updateGame now m = collide_loop m' (obstacles m')
    /\ obstacles m' = obstacles (updateGame now m)
    /\ frog m' = frog m
    /\ state m' = state m
    /\ collisionCVE m' = collisionCVE m
    /\ collisionMsg m' = collisionMsg m
    /\ collisionObs m' = collisionObs m.
Proof.
  unfold updateGame. cbv zeta.
  match goal with
  | |- exists m', collide_loop ?M ?L = _ /\ _ => exists M
  end.
  split; [reflexivity |].
  split; [symmetry; apply collide_loop_obstacles |].
  destruct (isZeroVulnGame _); cbn; tauto.
Qed.

Lemma updateGame_first_hit (now : Z) (m : Model) :
  match find (checkCollision (frog m)) (obstacles (updateGame now m)) with
  | Some obs =>
      state (updateGame now m) = stateGameOver
      /\ collisionCVE (updateGame now m) = cveID obs
      /\ collisionMsg (updateGame now m) = formatCollisionMessage obs
      /\ collisionObs (updateGame now m) = Some obs
  | None =>
      state (updateGame now m) = state m
      /\ collisionCVE (updateGame now m) = collisionCVE m
      /\ collisionMsg (updateGame now m) = collisionMsg m
      /\ collisionObs (updateGame now m) = collisionObs m
  end.
Proof.
  destruct (updateGame_as_loop now m)
    as (m' & E & Ho & Hf & Hs & Hc & Hm & Hb).
  rewrite <- Ho, <- Hf, E.
  rewrite collide_loop_first_hit.
  destruct (find (checkCollision (frog m')) (obstacles m')) as [obs |].
  - cbn. tauto.
  - tauto.
Qed.

End TickCollision.

(** X1.  A tick moves the obstacles and then tests them against the frog in
    list order: if one overlaps the frog, the game is over and the first
    such obstacle (as moved by this tick) is the one recorded, with its id
    and its message; if none does, state and collision record stay. *)
Theorem tick_records_first_hit :
  forall (RT : Runtime) (now : Z) (m : Model),
    match find (checkCollision (frog m)) (obstacles (updateGame now m)) with
    | Some obs =>
        state (updateGame now m) = stateGameOver
        /\ collisionCVE (updateGame now m) = cveID obs
        /\ collisionMsg (updateGame now m) = formatCollisionMessage obs
        /\ collisionObs (updateGame now m) = Some obs
    | None =>
        state (updateGame now m) = state m
        /\ collisionCVE (updateGame now m) = collisionCVE m
        /\ collisionMsg (updateGame now m) = collisionMsg m
        /\ collisionObs (updateGame now m) = collisionObs m
    end.
Proof.
  intros RT now m. apply updateGame_first_hit.
Qed.

(** ** What a tick leaves alone *)

Section TickFrame.

Context `{RT : Runtime}.

Lemma moveDecorative_loop_length (W now : Z) (delta : float64)
    (items : list decorativeItem) :
  forall i, List.length (moveDecorative_loop W now delta i items)
            = List.length items.
Proof.
  induction items as [| d rest IH]; intros i; cbn; [reflexivity |].
  now rewrite IH.
Qed.

Lemma collide_loop_frame (m : Model) (l : list obstacle) :
  collide_loop m l = m
  \/ exists cve msg obs,
       collide_loop m l = set_collision cve msg obs (set_state stateGameOver m).
Proof.
  rewrite collide_loop_first_hit.
  destruct (find (checkCollision (frog m)) l) as [obs |]; [right | now left].
  now eexists _, _, _.
Qed.

Lemma moveObstacle_fields (W : Z) (delta : float64) (o : obstacle) :
  y (pos (moveObstacle W delta o)) = y (pos o)
  /\ width (moveObstacle W delta o) = width o
  /\ speed (moveObstacle W delta o) = speed o
  /\ cveID (moveObstacle W delta o) = cveID o.
Proof.
  unfold moveObstacle.
  repeat match goal with
  | |- context [if ?c then _ else _] => destruct c
  end; cbn; tauto.
Qed.

Lemma updateGame_Forall_stable (P : obstacle -> Prop) (now : Z) (m : Model) :
  tick_stable P ->
  Forall P (obstacles m) -> Forall P (obstacles (updateGame now m)).
Proof.
  intros HP Hall. rewrite updateGame_obstacles.
  induction Hall as [| o l Ho _ IH]; cbn; constructor; [apply HP, Ho | exact IH].
Qed.

Lemma ticks_Forall_stable (P : obstacle -> Prop) (nows : list Z) :
  tick_stable P ->
  forall m, Forall P (obstacles m) -> Forall P (obstacles (ticks m nows)).
Proof.
  intros HP. induction nows as [| now rest IH]; intros m Hall; [exact Hall |].
  cbn [ticks]. apply IH, updateGame_Forall_stable; assumption.
Qed.

Lemma updateGame_frame (now : Z) (m : Model) :
    frog (updateGame now m) = frog m
    /\ m_width (updateGame now m) = m_width m
    /\ m_height (updateGame now m) = m_height m
    /\ lanes (updateGame now m) = lanes m
    /\ loadedVulns (updateGame now m) = loadedVulns m
    /\ hasMoved (updateGame now m) = hasMoved m
    /\ firstMoveTime (updateGame now m) = firstMoveTime m
    /\ isZeroVulnGame (updateGame now m) = isZeroVulnGame m
    /\ totalVulns (updateGame now m) = totalVulns m
    /\ List.length (obstacles (updateGame now m)) = List.length (obstacles m)
    /\ List.length (decorativeItems (updateGame now m))
       = List.length (decorativeItems m)
    /\ lastUpdate (updateGame now m) = now.
Proof.
  assert (Hlen : List.length (obstacles (updateGame now m))
                 = List.length (obstacles m))
    by (rewrite updateGame_obstacles; apply length_map).
  unfold updateGame in *. cbv zeta in *.
  match goal with
  | |- frog (collide_loop ?M ?L) = _ /\ _ =>
      destruct (collide_loop_frame M L) as [E | (cve & msg & obs & E)];
      rewrite E in *; clear E
  end;
    (destruct (isZeroVulnGame m) eqn:Ez;
     cbn [isZeroVulnGame set_obstacles set_lastUpdate] in *;
     rewrite ?Ez in *; cbn in *;
     rewrite ?moveDecorative_loop_length; repeat split; auto).
Qed.

End TickFrame.

(** X2.  A tick never moves the frog, never changes the viewport, the lanes,
    the cached vulnerabilities or the first-move record, and neither adds
    nor drops an obstacle or a decorative item; it stamps the clock reading
    as the time of the last update. *)
Theorem tick_frame :
  forall (RT : Runtime) (now : Z) (m : Model),
    frog (updateGame now m) = frog m
    /\ m_width (updateGame now m) = m_width m
    /\ m_height (updateGame now m) = m_height m
    /\ lanes (updateGame now m) = lanes m
    /\ loadedVulns (updateGame now m) = loadedVulns m
    /\ hasMoved (updateGame now m) = hasMoved m
    /\ firstMoveTime (updateGame now m) = firstMoveTime m
    /\ isZeroVulnGame (updateGame now m) = isZeroVulnGame m
    /\ totalVulns (updateGame now m) = totalVulns m
    /\ List.length (obstacles (updateGame now m)) = List.length (obstacles m)
    /\ List.length (decorativeItems (updateGame now m))
       = List.length (decorativeItems m)
    /\ lastUpdate (updateGame now m) = now.
Proof.
  intros RT now m. apply updateGame_frame.
Qed.

(** ** Every started game *)

Section StartedGame.

Context `{RT : Runtime}.

Lemma obstaclesFrom_Forall (P : obstacle -> Prop) (lanes : list lane)
    (w n : Z) (vulns : list Vulnerability) :
  (forall i vuln, 0 <= i -> P (obstacleAt lanes w n i vuln)) ->
  forall i, 0 <= i -> Forall P (obstaclesFrom lanes w n i vulns).
Proof.
  intros HP. induction vulns as [| v rest IH]; intros i Hi; cbn; constructor.
  - apply HP, Hi.
  - apply IH. lia.
Qed.

(** The lane of iteration [i] is one of the eight. *)
Lemma start_lane_of_index (i : Z) :
  0 <= i ->
  In (nth (Z.to_nat (Z.rem i (Z.of_nat (List.length startLanes))))
        startLanes zero_lane)
     startLanes.
Proof.
  intros Hi. apply nth_In. rewrite startLanes_count.
  assert (Hlen : List.length startLanes = 8%nat) by (vm_compute; reflexivity).
  rewrite Hlen. pose proof (Z.rem_bound_pos i 8 Hi ltac:(lia)). lia.
Qed.

Lemma startLanes_rows_in (ln : lane) :
  In ln startLanes -> In (l_y ln) lanePositions.
Proof.
  intros Hin. rewrite <- startLanes_rows. now apply in_map.
Qed.

(** Width and multiplier of every record are among the code's five
    pairs. *)
Lemma getObstacleProperties_range (vuln : Vulnerability) :
  (fst (widthAndMultiplier vuln) = 1 \/ fst (widthAndMultiplier vuln) = 2)
  /\ In (snd (widthAndMultiplier vuln)) multipliers.
Proof.
  unfold widthAndMultiplier, getObstacleProperties, multipliers.
  repeat match goal with
  | |- context [if ?c then _ else _] => destruct c
  end; cbn [fst snd In]; (split; [auto | auto 10]).
Qed.

Lemma lane_speed_checked :
  forallb (fun ln => forallb (lane_speed_check ln) multipliers) startLanes
  = true.
Proof. vm_compute. reflexivity. Qed.

Lemma lane_speed_check_sound (ln : lane) (sm : float64) (o : obstacle) :
  lane_speed_check ln sm = true ->
  y (pos o) = l_y ln ->
  speed o = F64.mul (F64.mul (l_speed ln) sm) (F64.of_int (direction ln)) ->
  speed_follows_lane o.
Proof.
  unfold lane_speed_check, speed_follows_lane. intros H Hy Hs.
  rewrite Hy, Hs.
  apply orb_true_iff in H. destruct H as [H | H];
    apply andb_true_iff in H; destruct H as [H H3];
    apply andb_true_iff in H; destruct H as [H1 H2];
    apply existsb_exists in H1; destruct H1 as (r & Hr & Er);
    apply Z.eqb_eq in Er; rewrite Er; [left | right]; tauto.
Qed.

Lemma obstacleAt_speed (lanes : list lane) (w n i : Z) (vuln : Vulnerability) :
  let ln := nth (Z.to_nat (Z.rem i (Z.of_nat (List.length lanes)))) lanes
              zero_lane in
  y (pos (obstacleAt lanes w n i vuln)) = l_y ln
  /\ width (obstacleAt lanes w n i vuln) = fst (widthAndMultiplier vuln)
  /\ speed (obstacleAt lanes w n i vuln)
     = F64.mul (F64.mul (l_speed ln) (snd (widthAndMultiplier vuln)))
         (F64.of_int (direction ln)).
Proof.
  unfold obstacleAt, widthAndMultiplier.
  destruct (getObstacleProperties vuln) as [[wd sm] ty]. cbn. tauto.
Qed.

(** What [startGame] puts on the board. *)
Lemma startGame_obstacle_shape (now : Z) (m : Model) (vulns : list Vulnerability) :
  Forall
    (fun o =>
       (width o = 1 \/ width o = 2)
       /\ In (y (pos o)) lanePositions
       /\ speed_follows_lane o)
    (obstacles (startGame now m vulns)).
Proof.
  rewrite startGame_obstacles.
  apply obstaclesFrom_Forall; [| lia].
  intros i vuln Hi.
  destruct (obstacleAt_speed startLanes (m_width m)
              (Z.of_nat (List.length vulns)) i vuln) as (Hy & Hw & Hs).
  destruct (getObstacleProperties_range vuln) as [Hwd Hsm].
  pose proof (start_lane_of_index i Hi) as Hin.
  set (ln := nth _ startLanes zero_lane) in *.
  split; [now rewrite Hw | split].
  - rewrite Hy. now apply startLanes_rows_in.
  - apply (lane_speed_check_sound ln (snd (widthAndMultiplier vuln)));
      [| exact Hy | exact Hs].
    pose proof lane_speed_checked as Hall.
    rewrite forallb_forall in Hall. specialize (Hall ln Hin).
    rewrite forallb_forall in Hall. apply Hall, Hsm.
Qed.

Lemma shape_stable :
  tick_stable
    (fun o =>
       (width o = 1 \/ width o = 2)
       /\ In (y (pos o)) lanePositions
       /\ speed_follows_lane o).
Proof.
  intros W delta o H. unfold speed_follows_lane in *.
  destruct (moveObstacle_fields W delta o) as (-> & -> & -> & _). exact H.
Qed.

(** No obstacle row is the frog's row: the collision loop finds nothing. *)
Lemma find_none_off_row (frog_pos : position) (l : list obstacle) :
  Forall (fun o => y (pos o) <> y frog_pos) l ->
  find (checkCollision frog_pos) l = None.
Proof.
  induction 1 as [| o l Ho _ IH]; cbn; [reflexivity |].
  unfold checkCollision at 1.
  destruct (Z.eqb_spec (y frog_pos) (y (pos o))) as [E | E]; [congruence |].
  cbn. exact IH.
Qed.

Lemma idle_ticks (nows : list Z) :
  forall m : Model,
    state m = statePlaying ->
    Forall (fun o => y (pos o) <> y (frog m)) (obstacles m) ->
    state (ticks m nows) = statePlaying /\ frog (ticks m nows) = frog m.
Proof.
  induction nows as [| now rest IH]; intros m Hs Hall; [now split |].
  cbn [ticks].
  assert (Hmoved : Forall (fun o => y (pos o) <> y (frog m))
                     (obstacles (updateGame now m))).
  { apply updateGame_Forall_stable; [| exact Hall].
    intros W delta o Ho.
    now destruct (moveObstacle_fields W delta o) as (-> & _). }
  pose proof (updateGame_first_hit now m) as Hhit.
  rewrite (find_none_off_row (frog m) _ Hmoved) in Hhit.
  destruct Hhit as (Hst & _).
  pose proof (updateGame_frog now m) as Hf.
  destruct (IH (updateGame now m)) as [H1 H2].
  - congruence.
  - now rewrite Hf.
  - split; [exact H1 | congruence].
Qed.

End StartedGame.

(** X3.  A frog that stays on its starting row is never hit: whatever the
    vulnerabilities and the viewport, after any number of ticks of a started
    game the state is still Playing and the frog is where [startGame] put
    it.  The obstacles run on the lane rows only. *)
Theorem idle_frog_is_never_hit :
  forall (RT : Runtime) (now : Z) (m : Model) (vulns : list Vulnerability)
         (nows : list Z),
    state (ticks (startGame now m vulns) nows) = statePlaying
    /\ frog (ticks (startGame now m vulns) nows)
       = {| x := GoInt.quot (m_width m) 2; y := gameAreaHeight - 1 |}.
Proof.
  intros RT now m vulns nows.
  rewrite <- (startGame_frog now m vulns).
  apply idle_ticks; [apply startGame_state |].
  pose proof (startGame_obstacle_shape now m vulns) as Hshape.
  rewrite startGame_frog. cbn [y].
  eapply Forall_impl; [| exact Hshape].
  intros o (_ & Hrow & _). unfold lanePositions, gameAreaHeight in *.
  cbn in Hrow. lia.
Qed.

Section StartedBounds.

Context `{RT : Runtime}.

Lemma Forall2_right (R : obstacle -> obstacle -> Prop) (Q : obstacle -> Prop)
    (l1 l2 : list obstacle) :
  Forall2 R l1 l2 -> (forall a b, R a b -> Q b) -> Forall Q l2.
Proof.
  intros H HQ. induction H as [| a b l1 l2 Hab _ IH]; constructor; eauto.
Qed.

Lemma ticks_width (nows : list Z) :
  forall m, m_width (ticks m nows) = m_width m.
Proof.
  induction nows as [| now rest IH]; intros m; [reflexivity |].
  cbn [ticks]. now rewrite IH, updateGame_width.
Qed.

Lemma obstacles_shape_after_ticks (now : Z) (m : Model)
    (vulns : list Vulnerability) (nows : list Z) :
  Forall
    (fun o =>
       (width o = 1 \/ width o = 2)
       /\ In (y (pos o)) lanePositions
       /\ speed_follows_lane o)
    (obstacles (ticks (startGame now m vulns) nows)).
Proof.
  apply ticks_Forall_stable; [apply shape_stable |].
  apply startGame_obstacle_shape.
Qed.

End StartedBounds.

(** X4.  Throughout a started game every obstacle is one or two cells wide,
    runs on one of the eight lane rows, and has a speed that follows its
    lane: positive (between 0.39 and 1.66) on rows 18, 14, 10 and 6,
    negative (between -1.66 and -0.39) on rows 16, 12, 8 and 4.  No obstacle
    stands still and no tick changes width, row or speed. *)
Theorem obstacles_keep_lane_shape :
  forall (RT : Runtime) (now : Z) (m : Model) (vulns : list Vulnerability)
         (nows : list Z),
    Forall
      (fun o =>
         (width o = 1 \/ width o = 2)
         /\ In (y (pos o)) lanePositions
         /\ speed_follows_lane o)
      (obstacles (ticks (startGame now m vulns) nows)).
Proof.
  intros RT now m vulns nows.
  apply obstacles_shape_after_ticks.
Qed.

(** X5.  In a started game, once a tick has run, every obstacle's integer
    position is between -7 and the viewport width plus 5, for every
    vulnerability list (also one that makes the generator start obstacles
    far outside), provided the width plus 5 fits an [int]. *)
Theorem started_game_stays_in_bounds :
  forall (RT : Runtime) (now : Z) (m : Model) (vulns : list Vulnerability)
         (nows : list Z),
    nows <> [] ->
    0 <= m_width m <= GoInt.max_int - 5 ->
    Forall (fun o => -7 <= x (pos o) <= m_width m + 5)
      (obstacles (ticks (startGame now m vulns) nows)).
Proof.
  intros RT now m vulns nows Hne HW.
  pose proof (startGame_obstacle_shape now m vulns) as Hshape.
  assert (Hwok : Forall width_ok (obstacles (startGame now m vulns))).
  { eapply Forall_impl; [| exact Hshape].
    intros o (Hw & _). unfold width_ok, GoInt.max_int. lia. }
  assert (HWok : viewport_ok (m_width (startGame now m vulns)))
    by (rewrite startGame_width; exact HW).
  pose proof (ticks_rel nows (startGame now m vulns) Hne HWok Hwok) as Hrel.
  rewrite startGame_width in Hrel.
  pose proof (obstacles_shape_after_ticks now m vulns nows) as Hafter.
  apply Forall_forall. intros o Ho.
  rewrite Forall_forall in Hafter. destruct (Hafter o Ho) as (Hw & _).
  assert (Hb : Forall (fun o' => - (width o' + 5) <= x (pos o') <= m_width m + 5)
                 (obstacles (ticks (startGame now m vulns) nows))).
  { eapply Forall2_right; [exact Hrel |].
    intros a b Hab. unfold tick_rel in Hab. tauto. }
  rewrite Forall_forall in Hb. specialize (Hb o Ho). lia.
Qed.

Lemma started_game_bounds_witness :
  Forall (fun o => -7 <= x (pos o) <= m_width fresh_model + 5)
    (obstacles (@ticks sample_runtime
                  (@startGame sample_runtime 0 fresh_model three_vulns)
                  four_ticks)).
Proof.
  assert (H1 : four_ticks <> []) by discriminate.
  assert (H2 : 0 <= m_width fresh_model <= GoInt.max_int - 5)
    by (vm_compute; split; discriminate).
  exact (started_game_stays_in_bounds sample_runtime 0 fresh_model three_vulns
           four_ticks H1 H2).
Defined.

(** ** The state machine of [Update] *)



(** X7.  GameOver and Victory are frozen: a tick changes nothing and returns
    no command, so the ticker stops, and every key that is neither a quit
    key nor a restart key is ignored, the movement keys included. *)
Theorem terminal_states_are_frozen :
  forall (RT : Runtime) (now : Z) (m : Model),
    state m = stateGameOver \/ state m = stateVictory ->
    Update now m tickMsg = (m, cmdNil)
    /\ (forall key : string,
          is_quit_key key = false -> is_restart_key key = false ->
          Update now m (KeyMsg key) = (m, cmdNil))
    /\ (forall key : string,
          is_quit_key key = true -> Update now m (KeyMsg key) = (m, cmdQuit)).
Proof.
  intros RT now m Hs. cbn [Update]. unfold handleKeyPress, is_quit_key,
    is_restart_key.
  split; [| split].
  - destruct Hs as [-> | ->]; reflexivity.
  - intros key Hq Hr. rewrite Hq, Hr. destruct Hs as [-> | ->]; reflexivity.
  - intros key Hq. rewrite Hq. destruct Hs as [-> | ->]; reflexivity.
Qed.

Lemma terminal_states_witness :
  @Update sample_runtime 2000000000 played_model tickMsg
  = (played_model, cmdNil).
Proof.
  assert (Hs : state played_model = stateGameOver \/
               state played_model = stateVictory)
    by (left; vm_compute; reflexivity).
  destruct (terminal_states_are_frozen sample_runtime 2000000000 played_model
              Hs) as [Htick _].
  exact Htick.
Defined.

Section Keys.

Context `{RT : Runtime}.

Lemma noteMove_record (now : Z) (m : Model) :
  hasMoved (noteMove now m) = true
  /\ firstMoveTime (noteMove now m)
     = (if hasMoved m then firstMoveTime m else now).
Proof. unfold noteMove. destruct (hasMoved m) eqn:E; cbn; auto. Qed.

Lemma sub_one_exact (a : Z) :
  GoInt.min_int < a <= GoInt.max_int + 1 -> GoInt.sub a 1 = a - 1.
Proof.
  intros H. unfold GoInt.sub. apply wrap_in_range.
  unfold GoInt.in_range, GoInt.min_int, GoInt.max_int in *. lia.
Qed.

Lemma add_one_exact (a : Z) :
  GoInt.min_int - 1 <= a < GoInt.max_int -> GoInt.add a 1 = a + 1.
Proof.
  intros H. unfold GoInt.add. apply wrap_in_range.
  unfold GoInt.in_range, GoInt.min_int, GoInt.max_int in *. lia.
Qed.

(** A key in the Playing state, for frog coordinates that are [int]s. *)
Lemma handleKeyPress_playing (now : Z) (m : Model) (key : string) :
  state m = statePlaying ->
  GoInt.in_range (x (frog m)) ->
  GoInt.in_range (y (frog m)) ->
  (state (fst (handleKeyPress now m key)) = statePlaying
   \/ state (fst (handleKeyPress now m key)) = stateVictory)
  /\ (state (fst (handleKeyPress now m key)) = stateVictory <->
      is_quit_key key = false /\ y (frog (fst (handleKeyPress now m key))) = 0)
  /\ obstacles (fst (handleKeyPress now m key)) = obstacles m
  /\ snd (handleKeyPress now m key)
     = (if is_quit_key key then cmdQuit else cmdNil)
  /\ Z.abs (x (frog (fst (handleKeyPress now m key))) - x (frog m))
     + Z.abs (y (frog (fst (handleKeyPress now m key))) - y (frog m)) <= 1
  /\ (frog (fst (handleKeyPress now m key)) = frog m ->
      hasMoved (fst (handleKeyPress now m key)) = hasMoved m
      /\ firstMoveTime (fst (handleKeyPress now m key)) = firstMoveTime m)
  /\ (frog (fst (handleKeyPress now m key)) <> frog m ->
      hasMoved (fst (handleKeyPress now m key)) = true
      /\ firstMoveTime (fst (handleKeyPress now m key))
         = (if hasMoved m then firstMoveTime m else now)).
Proof.
  intros Hs Hx Hy.
  pose proof (wrap_is_in_range (m_width m - 1)) as Hw1.
  unfold handleKeyPress, is_quit_key, noteMove, gameAreaHeight in *.
  rewrite Hs.
  change (GoInt.sub (m_width m) 1) with (GoInt.wrap (m_width m - 1)).
  set (w1 := GoInt.wrap (m_width m - 1)) in *. clearbody w1.
  destruct m as [src st lm fr obsl ln gst tv ci cc cm co w h lu hm fmt z di lv].
  destruct fr as [fx fy]. cbn [frog m_width x y state hasMoved] in *. subst st.
  unfold GoInt.in_range in *.
  destruct (key_in key ["q"; "esc"; "ctrl+c"]%string).
  { cbn. intuition (try reflexivity; try lia; try discriminate; try congruence). }
  destruct (key_in key ["up"; "w"]%string);
    [| destruct (key_in key ["down"; "s"]%string);
       [| destruct (key_in key ["left"; "a"]%string);
          [| destruct (key_in key ["right"; "d"]%string)]]];
    repeat match goal with
    | |- context [if ?a <? ?b then _ else _] => destruct (Z.ltb_spec a b)
    end;
    rewrite ?(sub_one_exact fy), ?(sub_one_exact fx), ?(add_one_exact fy),
      ?(add_one_exact fx)
      by (unfold GoInt.min_int, GoInt.max_int in *; lia);
    destruct hm; cbn;
    match goal with
    | |- context [if ?a =? 0 then _ else _] => destruct (Z.eqb_spec a 0)
    end;
    cbn;
    intuition (try reflexivity; try lia; try discriminate; try congruence;
               try match goal with
                   | H : {| x := _; y := _ |} = {| x := _; y := _ |} |- _ =>
                       injection H; intros; lia
                   end).
Qed.

End Keys.

(** X8.  A key handled while playing never loses the game: the state stays
    Playing or becomes Victory, and it becomes Victory exactly when the key
    is no quit key and the frog stands on row 0 after it.  The key moves the
    frog by one cell at most, leaves the obstacles alone, and asks for
    nothing but, for a quit key, the quit.  This holds wherever the frog is,
    inside the viewport or not; its coordinates are [int]s. *)
Theorem keys_win_or_play_on :
  forall (RT : Runtime) (now : Z) (m : Model) (key : string),
    state m = statePlaying ->
    GoInt.in_range (x (frog m)) ->
    GoInt.in_range (y (frog m)) ->
    (state (fst (handleKeyPress now m key)) = statePlaying
     \/ state (fst (handleKeyPress now m key)) = stateVictory)
    /\ (state (fst (handleKeyPress now m key)) = stateVictory <->
        is_quit_key key = false
        /\ y (frog (fst (handleKeyPress now m key))) = 0)
    /\ obstacles (fst (handleKeyPress now m key)) = obstacles m
    /\ snd (handleKeyPress now m key)
       = (if is_quit_key key then cmdQuit else cmdNil)
    /\ Z.abs (x (frog (fst (handleKeyPress now m key))) - x (frog m))
       + Z.abs (y (frog (fst (handleKeyPress now m key))) - y (frog m)) <= 1.
Proof.
  intros RT now m key Hs Hx Hy.
  destruct (handleKeyPress_playing now m key Hs Hx Hy)
    as (H1 & H2 & H3 & H4 & H5 & _).
  split; [exact H1 | split; [exact H2 | split; [exact H3 | split]]];
    assumption.
Qed.

Lemma keys_win_or_play_on_witness :
  obstacles (fst (@handleKeyPress sample_runtime 7000 shrunk_model "left"))
  = obstacles shrunk_model.
Proof.
  assert (Hs : state shrunk_model = statePlaying) by (vm_compute; reflexivity).
  assert (Hx : GoInt.in_range (x (frog shrunk_model)))
    by (vm_compute; split; discriminate).
  assert (Hy : GoInt.in_range (y (frog shrunk_model)))
    by (vm_compute; split; discriminate).
  destruct (keys_win_or_play_on sample_runtime 7000 shrunk_model "left"
              Hs Hx Hy) as (_ & _ & Hobs & _).
  exact Hobs.
Defined.

(** X9.  The first-move record follows the frog, not the key: a key that
    leaves the frog where it is (an unknown key, or a move blocked at an
    edge of the board) leaves the record untouched; a key that moves the frog
    sets [hasMoved], and stamps [firstMoveTime] with the clock only if no
    move was recorded before.  This holds wherever the frog is, inside the
    viewport or not; its coordinates are [int]s. *)
Theorem first_move_is_recorded_once :
  forall (RT : Runtime) (now : Z) (m : Model) (key : string),
    state m = statePlaying ->
    GoInt.in_range (x (frog m)) ->
    GoInt.in_range (y (frog m)) ->
    (frog (fst (handleKeyPress now m key)) = frog m ->
     hasMoved (fst (handleKeyPress now m key)) = hasMoved m
     /\ firstMoveTime (fst (handleKeyPress now m key)) = firstMoveTime m)
    /\ (frog (fst (handleKeyPress now m key)) <> frog m ->
        hasMoved (fst (handleKeyPress now m key)) = true
        /\ firstMoveTime (fst (handleKeyPress now m key))
           = (if hasMoved m then firstMoveTime m else now)).
Proof.
  intros RT now m key Hs Hx Hy.
  destruct (handleKeyPress_playing now m key Hs Hx Hy)
    as (_ & _ & _ & _ & _ & H6 & H7).
  split; assumption.
Qed.

Lemma first_move_witness :
  hasMoved (fst (@handleKeyPress sample_runtime 7000 shrunk_model "left"))
  = true
  /\ firstMoveTime (fst (@handleKeyPress sample_runtime 7000 shrunk_model "left"))
     = 7000.
Proof.
  assert (Hs : state shrunk_model = statePlaying) by (vm_compute; reflexivity).
  assert (Hx : GoInt.in_range (x (frog shrunk_model)))
    by (vm_compute; split; discriminate).
  assert (Hy : GoInt.in_range (y (frog shrunk_model)))
    by (vm_compute; split; discriminate).
  destruct (first_move_is_recorded_once sample_runtime 7000 shrunk_model "left"
              Hs Hx Hy) as (_ & Hmoved).
  assert (Hne : frog (fst (@handleKeyPress sample_runtime 7000 shrunk_model "left"))
                <> frog shrunk_model) by (vm_compute; discriminate).
  destruct (Hmoved Hne) as [H1 H2]. split; [exact H1 |].
  rewrite H2. vm_compute. reflexivity.
Defined.

(** ** What holds throughout a session *)

Section Session.

Context `{RT : Runtime}.

Lemma startGame_more (now : Z) (m : Model) (vulns : list Vulnerability) :
  lanes (startGame now m vulns) = startLanes
  /\ totalVulns (startGame now m vulns) = Z.of_nat (List.length vulns)
  /\ m_height (startGame now m vulns) = m_height m
  /\ (vulns = [] ->
      isZeroVulnGame (startGame now m vulns) = true
      /\ List.length (decorativeItems (startGame now m vulns)) = 12%nat)
  /\ (vulns <> [] ->
      isZeroVulnGame (startGame now m vulns) = isZeroVulnGame m
      /\ decorativeItems (startGame now m vulns) = decorativeItems m).
Proof.
  unfold startGame. set (m1 := set_lanes _ _).
  rewrite (generateObstacles_frame m1 vulns).
  destruct vulns as [| v rest]; cbn [List.length Z.of_nat Z.eqb].
  - repeat split; try reflexivity; congruence.
  - repeat split; try reflexivity; congruence.
Qed.

Lemma startGame_session (now : Z) (m : Model) (vulns : list Vulnerability) :
  0 < m_width m <= GoInt.max_int ->
  0 < m_height m ->
  loadedVulns m = vulns ->
  (if isZeroVulnGame m
   then List.length (decorativeItems m) = 12%nat
   else decorativeItems m = []) ->
  session_inv (startGame now m vulns).
Proof.
  intros HW Hh Hv Hd. unfold session_inv.
  destruct (startGame_more now m vulns) as (Hl & Ht & Hhh & Hz & Hnz).
  rewrite startGame_width, Hhh, startGame_frog, startGame_obstacles,
    startGame_loadedVulns, Ht, Hl, startGame_state, Hv. cbn [x y].
  rewrite <- startGame_obstacles with (now := now).
  split; [exact HW | split; [exact Hh | split; [| split]]].
  - pose proof (Z.quot_pos (m_width m) 2 ltac:(lia) ltac:(lia)).
    pose proof (Z.quot_le_upper_bound (m_width m) 2 (m_width m)
                  ltac:(lia) ltac:(lia)).
    unfold GoInt.quot. rewrite wrap_in_range;
      unfold GoInt.in_range, GoInt.min_int, GoInt.max_int in *; lia.
  - unfold gameAreaHeight. lia.
  - split; [rewrite startGame_obstacles; apply obstaclesFrom_length |].
    split; [reflexivity |].
    split; [apply startGame_obstacle_shape |].
    split; [now right |].
    split; [discriminate |].
    split; [reflexivity |].
    destruct vulns as [| v rest].
    + destruct (Hz eq_refl) as [-> ->]. reflexivity.
    + destruct (Hnz ltac:(discriminate)) as [-> ->]. exact Hd.
Qed.

Lemma NewModel_session (now : Z) (src : VulnerabilitySource) :
  session_inv (NewModel now src).
Proof.
  unfold session_inv, NewModel, gameAreaHeight, GoInt.max_int.
  cbn [m_width m_height frog x y obstacles loadedVulns totalVulns lanes state
         isZeroVulnGame decorativeItems List.length Z.of_nat].
  repeat split; try lia; try (now left); auto; intros [H | H]; discriminate.
Qed.

Lemma lane_shape_stable : tick_stable lane_shape.
Proof. apply shape_stable. Qed.

Lemma updateGame_state_cases (now : Z) (m : Model) :
  state (updateGame now m) = state m
  \/ state (updateGame now m) = stateGameOver.
Proof.
  pose proof (updateGame_first_hit now m) as H.
  destruct (find (checkCollision (frog m)) (obstacles (updateGame now m)));
    [right | left]; apply H.
Qed.

Lemma updateGame_session (now : Z) (m : Model) :
  state m = statePlaying -> session_inv m -> session_inv (updateGame now m).
Proof.
  intros Hs (HW & Hh & Hx & Hy & Hlen & Ht & Hsh & Hl & Hload & Hplay & Hd).
  destruct (updateGame_frame now m)
    as (Ef & Ew & Eh & El & Ev & _ & _ & Ez & Et & Eo & Ed & _).
  unfold session_inv. rewrite Ef, Ew, Eh, El, Ev, Ez, Et, Eo.
  split; [exact HW | split; [exact Hh | split; [exact Hx | split; [exact Hy |]]]].
  split; [exact Hlen | split; [exact Ht |]].
  split; [apply updateGame_Forall_stable; [apply lane_shape_stable | exact Hsh] |].
  assert (Hlanes : lanes m = startLanes) by (apply Hplay; now left).
  split; [now right |].
  split; [intros E; destruct (updateGame_state_cases now m); congruence |].
  split; [intros _; exact Hlanes |].
  destruct (isZeroVulnGame m).
  - now rewrite Ed.
  - rewrite Hd in Ed. cbn in Ed.
    destruct (decorativeItems (updateGame now m)); [reflexivity | discriminate].
Qed.

Lemma handleKeyPress_playing_frame (now : Z) (m : Model) (key : string) :
  state m = statePlaying ->
  0 < m_width m <= GoInt.max_int ->
  0 <= x (frog m) <= GoInt.max_int ->
  0 <= y (frog m) <= gameAreaHeight - 1 ->
  obstacles (fst (handleKeyPress now m key)) = obstacles m
  /\ loadedVulns (fst (handleKeyPress now m key)) = loadedVulns m
  /\ totalVulns (fst (handleKeyPress now m key)) = totalVulns m
  /\ lanes (fst (handleKeyPress now m key)) = lanes m
  /\ m_width (fst (handleKeyPress now m key)) = m_width m
  /\ m_height (fst (handleKeyPress now m key)) = m_height m
  /\ isZeroVulnGame (fst (handleKeyPress now m key)) = isZeroVulnGame m
  /\ decorativeItems (fst (handleKeyPress now m key)) = decorativeItems m
  /\ (state (fst (handleKeyPress now m key)) = statePlaying
      \/ state (fst (handleKeyPress now m key)) = stateVictory)
  /\ 0 <= x (frog (fst (handleKeyPress now m key))) <= GoInt.max_int
  /\ 0 <= y (frog (fst (handleKeyPress now m key))) <= gameAreaHeight - 1.
Proof.
  intros Hs HW Hx Hy.
  unfold handleKeyPress, noteMove, gameAreaHeight in *.
  rewrite Hs.
  destruct m as [src st lm fr obsl ln gst tv ci cc cm co w h lu hm fmt z di lv].
  destruct fr as [fx fy]. cbn [frog m_width x y state hasMoved] in *. subst st.
  assert (E2 : GoInt.sub fy 1 = fy - 1)
    by (unfold GoInt.sub; apply wrap_in_range;
        unfold GoInt.in_range, GoInt.min_int, GoInt.max_int in *; lia).
  assert (E3 : GoInt.add fy 1 = fy + 1)
    by (unfold GoInt.add; apply wrap_in_range;
        unfold GoInt.in_range, GoInt.min_int, GoInt.max_int in *; lia).
  assert (E1 : GoInt.sub w 1 = w - 1)
    by (unfold GoInt.sub; apply wrap_in_range;
        unfold GoInt.in_range, GoInt.min_int, GoInt.max_int in *; lia).
  rewrite E1, E2, E3.
  destruct (key_in key ["q"; "esc"; "ctrl+c"]%string).
  { cbn. intuition (try reflexivity; try lia). }
  destruct (key_in key ["up"; "w"]%string);
    [| destruct (key_in key ["down"; "s"]%string);
       [| destruct (key_in key ["left"; "a"]%string);
          [| destruct (key_in key ["right"; "d"]%string)]]];
    repeat match goal with
    | |- context [if ?a <? ?b then _ else _] => destruct (Z.ltb_spec a b)
    end;
    destruct hm; cbn;
    match goal with
    | |- context [if ?a =? 0 then _ else _] => destruct (Z.eqb_spec a 0)
    end;
    cbn;
    try (assert (E4 : GoInt.sub fx 1 = fx - 1)
          by (unfold GoInt.sub; apply wrap_in_range;
              unfold GoInt.in_range, GoInt.min_int, GoInt.max_int in *; lia);
         rewrite ?E4);
    try (assert (E5 : GoInt.add fx 1 = fx + 1)
          by (unfold GoInt.add; apply wrap_in_range;
              unfold GoInt.in_range, GoInt.min_int, GoInt.max_int in *; lia);
         rewrite ?E5);
    unfold GoInt.max_int in *;
    intuition (try reflexivity; try lia).
Qed.

Lemma handleKeyPress_session (now : Z) (m : Model) (key : string) :
  session_inv m -> session_inv (fst (handleKeyPress now m key)).
Proof.
  intros Hinv.
  destruct (state m) eqn:Hs.
  - (* Loading *)
    unfold handleKeyPress. rewrite Hs.
    destruct (key_in key ["q"; "esc"; "ctrl+c"]%string); [exact Hinv |].
    destruct (key_in key ["enter"; " "]%string); exact Hinv.
  - (* Playing *)
    destruct Hinv as (HW & Hh & Hx & Hy & Hlen & Ht & Hsh & Hl & Hload & Hplay & Hd).
    destruct (handleKeyPress_playing_frame now m key Hs HW Hx Hy)
      as (Eo & Ev & Et & El & Ew & Eh & Ez & Ed & Est & [Efx Efx'] & [Efy Efy']).
    destruct HW as [HW HW'].
    unfold session_inv. rewrite Eo, Ev, Et, El, Ew, Eh, Ez, Ed.
    assert (Hlanes : lanes m = startLanes) by (apply Hplay; now left).
    repeat match goal with |- _ /\ _ => split end; try assumption.
    + intros E. destruct Est; congruence.
    + intros _. exact Hlanes.
  - (* GameOver *)
    unfold handleKeyPress. rewrite Hs.
    destruct (key_in key ["q"; "esc"; "ctrl+c"]%string); [exact Hinv |].
    destruct (key_in key ["enter"; " "]%string); [| exact Hinv].
    rewrite restartGame_eq. cbn [fst].
    destruct Hinv as (HW & Hh & _).
    apply startGame_session; try assumption; reflexivity.
  - (* Victory *)
    unfold handleKeyPress. rewrite Hs.
    destruct (key_in key ["q"; "esc"; "ctrl+c"]%string); [exact Hinv |].
    destruct (key_in key ["enter"; " "]%string); [| exact Hinv].
    rewrite restartGame_eq. cbn [fst].
    destruct Hinv as (HW & Hh & _).
    apply startGame_session; try assumption; reflexivity.
Qed.

Lemma Update_session (now : Z) (m : Model) (msg : Msg) :
  msg_ok msg -> session_inv m -> session_inv (fst (Update now m msg)).
Proof.
  intros Hok Hinv. destruct msg as [key | w h | vulns | err | |]; cbn [Update].
  - apply handleKeyPress_session, Hinv.
  - destruct (Z.ltb_spec 0 w) as [Hw | Hw]; [| exact Hinv].
    destruct (Z.ltb_spec 0 h) as [Hh | Hh]; [| exact Hinv].
    cbn [andb fst]. unfold msg_ok in Hok. destruct Hok as [Hok _].
    destruct Hinv as (_ & _ & Hrest). unfold session_inv.
    cbn [m_width m_height set_size]. split; [lia | split; [lia | exact Hrest]].
  - cbn [fst]. destruct Hinv as (HW & Hh & _ & _ & _ & _ & _ & _ & _ & _ & Hd).
    apply startGame_session; try assumption; reflexivity.
  - cbn [fst].
    destruct Hinv as (HW & Hh & Hx & Hy & Hlen & Ht & Hsh & Hl & Hload & Hplay & Hd).
    unfold session_inv.
    cbn [m_width m_height frog obstacles loadedVulns totalVulns lanes state
           isZeroVulnGame decorativeItems set_collision set_state].
    repeat match goal with |- _ /\ _ => split end; try assumption; try lia.
    + discriminate.
    + intros [E | E]; discriminate.
  - destruct (state m) eqn:Hs; cbn [fst]; try exact Hinv.
    now apply updateGame_session.
  - exact Hinv.
Qed.

Lemma run_session (events : list (Z * Msg)) :
  forall m : Model,
    Forall (fun ev => msg_ok (snd ev)) events ->
    session_inv m -> session_inv (run m events).
Proof.
  induction events as [| [now msg] rest IH]; intros m Hev Hinv; [exact Hinv |].
  inversion Hev as [| ? ? Hok Hrest]; subst. cbn [run].
  apply IH; [exact Hrest |]. apply Update_session; assumption.
Qed.

End Session.

(** X10.  Throughout a session - any run of the event loop from [NewModel],
    whatever the messages and their order - the viewport is positive, the
    frog's column is not negative and its row lies between 0 and 19, there
    is exactly one obstacle per cached vulnerability, the count shown is
    the length of the cached list, every obstacle keeps the shape of its
    lane (width 1 or 2, a lane row, a speed in its lane's direction), the
    lanes are the eight of [startGame] once a game was started, and the
    decorative items number 12 in a zero-vulnerability game and none
    otherwise. *)
Theorem session_invariant :
  forall (RT : Runtime) (now : Z) (src : VulnerabilitySource)
         (events : list (Z * Msg)),
    Forall (fun ev => msg_ok (snd ev)) events ->
    session_inv (run (NewModel now src) events).
Proof.
  intros RT now src events Hev.
  apply run_session; [exact Hev | apply NewModel_session].
Qed.

Lemma session_invariant_witness :
  session_inv
    (@run sample_runtime (NewModel 0 sample_source)
       [(0, WindowSizeMsg 120 40);
        (1000, vulnerabilitiesLoadedMsg sixteen_vulns);
        (2000, KeyMsg "up");
        (1150000000, tickMsg);
        (2000000000, KeyMsg "enter")]).
Proof.
  apply (session_invariant sample_runtime 0 sample_source).
  repeat constructor; vm_compute; discriminate.
Defined.

(** ** The frog stays on the board *)

Section Area.

Context `{RT : Runtime}.

(** The column is guarded, not clamped: "right" steps only from a column
    below [m.width - 1], "left" only from a column above 0, and nothing
    brings a frog back that a resize left outside the viewport. *)
Lemma handleKeyPress_area (now : Z) (m : Model) (key : string) :
  state m = statePlaying ->
  0 < m_width m <= GoInt.max_int ->
  0 <= x (frog m) <= GoInt.max_int ->
  0 <= y (frog m) <= gameAreaHeight - 1 ->
  0 <= y (frog (fst (handleKeyPress now m key))) <= gameAreaHeight - 1
  /\ 0 <= x (frog (fst (handleKeyPress now m key)))
     <= Z.max (x (frog m)) (m_width m - 1).
Proof.
  intros Hs HW Hx Hy.
  unfold handleKeyPress, noteMove, gameAreaHeight in *.
  rewrite Hs.
  destruct m as [src st lm fr obsl ln gst tv ci cc cm co w h lu hm fmt z di lv].
  destruct fr as [fx fy]. cbn [frog m_width x y state hasMoved] in *. subst st.
  rewrite (sub_one_exact w) by (unfold GoInt.min_int, GoInt.max_int in *; lia).
  destruct (key_in key ["q"; "esc"; "ctrl+c"]%string).
  { cbn. lia. }
  destruct (key_in key ["up"; "w"]%string);
    [| destruct (key_in key ["down"; "s"]%string);
       [| destruct (key_in key ["left"; "a"]%string);
          [| destruct (key_in key ["right"; "d"]%string)]]];
    repeat match goal with
    | |- context [if ?a <? ?b then _ else _] => destruct (Z.ltb_spec a b)
    end;
    rewrite ?(sub_one_exact fy), ?(sub_one_exact fx), ?(add_one_exact fy),
      ?(add_one_exact fx)
      by (unfold GoInt.min_int, GoInt.max_int in *; lia);
    destruct hm; cbn;
    match goal with
    | |- context [if ?a =? 0 then _ else _] => destruct (Z.eqb_spec a 0)
    end;
    cbn; unfold GoInt.max_int in *; lia.
Qed.

End Area.

(** C10 (as the code has it).  In every Playing state of a session - any run
    of the event loop from [NewModel] whose window sizes fit an [int] - a key
    leaves the frog's row between 0 and [gameAreaHeight - 1] = 19 and its
    column at 0 or more, and changes neither width nor height of the
    viewport.  The height of the area is the
    constant [gameAreaHeight] = 20; the viewport's height plays no part in
    the move, and the row is inside the rows the viewport leaves under the
    header whenever the viewport has at least [minTerminalHeight] = 22 rows.
    The column is guarded, not clamped: after the key it is at most the
    larger of the column before and the viewport width minus 1, so a frog
    inside the width stays inside, and a frog that a resize left outside
    stays outside until it is walked back. *)
Theorem C10_movement_keeps_frog_in_game_area :
  forall (RT : Runtime) (t0 : Z) (src : VulnerabilitySource)
         (events : list (Z * Msg)) (now : Z) (key : string),
    Forall (fun ev => msg_ok (snd ev)) events ->
    state (run (NewModel t0 src) events) = statePlaying ->
    let m := run (NewModel t0 src) events in
    let m' := fst (handleKeyPress now m key) in
    0 <= y (frog m') <= gameAreaHeight - 1
    /\ gameAreaHeight = 20
    /\ m_width m' = m_width m
    /\ m_height m' = m_height m
    /\ 0 <= x (frog m') <= Z.max (x (frog m)) (m_width m - 1)
    /\ (frog_in_game_area m -> frog_in_game_area m')
    /\ (minTerminalHeight <= m_height m ->
        y (frog m') <= (m_height m' - headerRows) - 1).
Proof.
  intros RT t0 src events now key Hev Hs m m'.
  assert (Hinv : session_inv m)
    by (apply run_session; [exact Hev | apply NewModel_session]).
  destruct Hinv as (HW & _ & Hx & Hy & _).
  destruct (handleKeyPress_area now m key Hs HW Hx Hy) as [Hy' Hx'].
  destruct (handleKeyPress_playing_frame now m key Hs HW Hx Hy)
    as (_ & _ & _ & _ & Ew & Eh & _).
  fold m' in Hy', Hx', Ew, Eh.
  split; [exact Hy' |]. split; [reflexivity |].
  split; [exact Ew |]. split; [exact Eh |]. split; [exact Hx' |].
  split.
  - intros [Hin _]. unfold frog_in_game_area. rewrite Ew.
    split; [lia | exact Hy'].
  - intros Hh. rewrite Eh.
    unfold headerRows, minTerminalHeight, gameAreaHeight in *. lia.
Qed.

Lemma C10_movement_witness :
  x (frog (fst (@handleKeyPress sample_runtime 3000 shrunk_model "left")))
  <= Z.max (x (frog shrunk_model)) (m_width shrunk_model - 1).
Proof.
  destruct (C10_movement_keeps_frog_in_game_area sample_runtime 0
              sample_source
              [(0, vulnerabilitiesLoadedMsg sixteen_vulns);
               (1000, WindowSizeMsg 20 24)] 3000 "left")
    as (_ & _ & _ & _ & [_ H] & _).
  - repeat constructor; vm_compute; discriminate.
  - vm_compute. reflexivity.
  - exact H.
Defined.

(** With 21 rows the viewport leaves 19 rows below the header, rows 0 to
    18: the frog on row 18 is inside, and "down" takes it to row 19. *)
Lemma C10_viewport_height_counterexample :
  state short_viewport_model = statePlaying
  /\ frog_in_viewport_area short_viewport_model
  /\ ~ frog_in_viewport_area
         (fst (@handleKeyPress sample_runtime 3000 short_viewport_model "down")).
Proof.
  split; [vm_compute; reflexivity | split].
  - vm_compute. repeat split; discriminate.
  - intros (_ & _ & H). vm_compute in H. apply H. reflexivity.
Qed.

(** The column after a resize: the game was loaded at 80 columns, the frog
    stands on column 40, the terminal shrinks to 20 columns, and "left"
    takes the frog to column 39, still right of the last column, 19. *)
Lemma shrunk_viewport_sample :
  state shrunk_model = statePlaying
  /\ x (frog shrunk_model) = 40
  /\ m_width shrunk_model = 20
  /\ x (frog (fst (@handleKeyPress sample_runtime 3000 shrunk_model "left")))
     = 39.
Proof. repeat split; vm_compute; reflexivity. Qed.

(** ** What is drawn and what hits *)

Lemma findObstacleAt_loop_find (obs_list : list obstacle) (cx cy : Z) :
  findObstacleAt_loop obs_list cx cy =
  match find (checkCollision {| x := cx; y := cy |}) obs_list with
  | Some obs => (true, severity obs, severityLabel obs)
  | None => (false, K.f0, ""%string)
  end.
Proof.
  induction obs_list as [| obs rest IH]; [reflexivity |].
  cbn [findObstacleAt_loop find]. unfold checkCollision at 1.
  cbn [x y]. rewrite (Z.eqb_sym cy (y (pos obs))).
  destruct (y (pos obs) =? cy); cbn [negb andb]; [| exact IH].
  destruct (x (pos obs) <=? cx); cbn [andb]; [| exact IH].
  destruct (cx <? GoInt.add (x (pos obs)) (width obs)); [reflexivity | exact IH].
Qed.

(** X11.  The renderer and the collision test agree: [findObstacleAt] finds an
    obstacle on a cell exactly when [checkCollision] would report a hit for a
    frog on that cell, and the severity it hands to the drawing code is that
    of the first such obstacle in the list, the one a tick would record. *)
Theorem drawn_obstacle_is_the_one_that_hits :
  forall (m : Model) (cx cy : Z),
    findObstacleAt m cx cy =
    match find (checkCollision {| x := cx; y := cy |}) (obstacles m) with
    | Some obs => (true, severity obs, severityLabel obs)
    | None => (false, K.f0, ""%string)
    end.
Proof.
  intros m cx cy. apply findObstacleAt_loop_find.
Qed.

(** X12.  The glyph of an obstacle follows its class: a vulnerability that
    [getObstacleProperties] makes a boss is drawn as the T-Rex and one it
    makes a truck as the truck, both two cells wide; every other one is one
    cell wide and drawn as a car or a bicycle. *)
Theorem glyph_follows_class :
  forall (LG : Lipgloss) (vuln : Vulnerability),
    match getObstacleProperties vuln with
    | (w, _, obstacleTypeBoss) =>
        w = 2 /\ getObstacleEmoji (CVSS vuln) (Severity vuln) = Render bossStyle t_rex
    | (w, _, obstacleTypeTruck) =>
        w = 2 /\ getObstacleEmoji (CVSS vuln) (Severity vuln) = Render truckStyle truck
    | (w, _, obstacleTypeCar) =>
        w = 1
        /\ (getObstacleEmoji (CVSS vuln) (Severity vuln) = Render mediumCarStyle car
            \/ getObstacleEmoji (CVSS vuln) (Severity vuln) = Render lowCarStyle car
            \/ getObstacleEmoji (CVSS vuln) (Severity vuln) = Render carStyle car
            \/ getObstacleEmoji (CVSS vuln) (Severity vuln) = Render bicycleStyle bicycle)
    end.
Proof.
  intros LG vuln. unfold getObstacleProperties, getObstacleEmoji.
  destruct (F64.gtb (CVSS vuln) K.f0).
  - destruct (F64.geb (CVSS vuln) K.f9_0); [split; reflexivity |].
    destruct (F64.geb (CVSS vuln) K.f7_0); [split; reflexivity |].
    destruct (F64.geb (CVSS vuln) K.f4_0); split; auto.
  - destruct (String.eqb (Severity vuln) "Critical"); [split; reflexivity |].
    destruct (String.eqb (Severity vuln) "High"); [split; reflexivity |].
    destruct (String.eqb (Severity vuln) "Medium"); [split; auto |].
    destruct (String.eqb (Severity vuln) "Low"); [split; auto |].
    destruct (String.eqb (Severity vuln) "Negligible"); split; auto.
Qed.

(** ** The parser of the grype report *)

Lemma f0_zero : K.f0 = S754_zero false.
Proof. vm_compute. reflexivity. Qed.

Lemma leb_refl (a : float64) : F64.is_nan a = false -> F64.leb a a = true.
Proof.
  unfold_cmp. float_cases a; cbn; try discriminate; try reflexivity;
    intros _; rewrite Z.compare_refl, Pos.compare_cont_refl; reflexivity.
Qed.

Lemma ltb_leb (a b : float64) : F64.ltb a b = true -> F64.leb a b = true.
Proof.
  unfold_cmp. float_cases a; float_cases b; cbn;
    try discriminate; try reflexivity; intros H1; cmp_cases.
Qed.

Lemma ltb_numbers (a b : float64) :
  F64.ltb a b = true -> F64.is_nan a = false /\ F64.is_nan b = false.
Proof.
  unfold_cmp. float_cases a; float_cases b; cbn;
    try discriminate; intros _; split; reflexivity.
Qed.

Lemma not_gtb_leb (a b : float64) :
  F64.is_nan a = false -> F64.is_nan b = false ->
  F64.gtb a b = false -> F64.leb a b = true.
Proof.
  unfold_cmp. float_cases a; float_cases b; cbn;
    try discriminate; try reflexivity; intros _ _ H1; cmp_cases.
Qed.

Lemma leb_trans (a b c : float64) :
  F64.leb a b = true -> F64.leb b c = true -> F64.leb a c = true.
Proof.
  unfold_cmp. float_cases a; float_cases b; float_cases c; cbn;
    try discriminate; try reflexivity; intros H1 H2; cmp_cases.
Qed.

Lemma leb_zero_not_gtb (a : float64) :
  F64.leb a (S754_zero false) = true -> F64.gtb a (S754_zero false) = false.
Proof.
  unfold_cmp. float_cases a; cbn; try discriminate; reflexivity.
Qed.

Lemma score_ok_number (s : float64) : score_ok s -> F64.is_nan s = false.
Proof.
  intros [-> | H]; [reflexivity |].
  unfold F64.gtb in H. apply (ltb_numbers _ _ H).
Qed.

Lemma score_ok_leb (s : float64) : score_ok s -> F64.leb (S754_zero false) s = true.
Proof.
  intros [-> | H]; [reflexivity |].
  apply ltb_leb. exact H.
Qed.

Lemma highestScore_inv (entries : list CVSSInfo) :
  forall acc : float64,
    score_ok acc ->
    score_ok (highestScore acc entries)
    /\ F64.leb acc (highestScore acc entries) = true
    /\ (highestScore acc entries = acc
        \/ exists cvss, In cvss entries
                        /\ highestScore acc entries = entryScore cvss)
    /\ (forall cvss, In cvss entries ->
          F64.is_nan (entryScore cvss) = false ->
          F64.leb (entryScore cvss) (highestScore acc entries) = true).
Proof.
  induction entries as [| c rest IH]; intros acc Hacc.
  - cbn [highestScore]. repeat split.
    + exact Hacc.
    + apply leb_refl, score_ok_number, Hacc.
    + left. reflexivity.
    + intros cvss [].
  - cbn [highestScore].
    destruct (F64.gtb (entryScore c) acc) eqn:E.
    + assert (Hc : score_ok (entryScore c)).
      { right. unfold F64.gtb.
        apply (leb_ltb_trans _ acc _ (score_ok_leb _ Hacc)). exact E. }
      destruct (IH _ Hc) as (H1 & H2 & H3 & H4).
      repeat split.
      * exact H1.
      * apply ltb_leb.
        apply (ltb_leb_trans acc (entryScore c) _ E H2).
      * right. destruct H3 as [H3 | (cvss & Hin & H3)].
        -- exists c. split; [left; reflexivity | exact H3].
        -- exists cvss. split; [right; exact Hin | exact H3].
      * intros cvss [<- | Hin] Hn; [exact H2 | exact (H4 cvss Hin Hn)].
    + destruct (IH _ Hacc) as (H1 & H2 & H3 & H4).
      repeat split.
      * exact H1.
      * exact H2.
      * destruct H3 as [H3 | (cvss & Hin & H3)]; [left; exact H3 |].
        right. exists cvss. split; [right; exact Hin | exact H3].
      * intros cvss [<- | Hin] Hn; [| exact (H4 cvss Hin Hn)].
        pose proof (not_gtb_leb _ _ Hn (score_ok_number _ Hacc) E) as Hle.
        exact (leb_trans _ _ _ Hle H2).
Qed.

Lemma parse_loop_map (matches : list Match) :
  forall vulns, parse_loop matches vulns = vulns ++ map vulnerabilityOf matches.
Proof.
  induction matches as [| mt rest IH]; intros vulns; cbn [parse_loop map].
  - rewrite app_nil_r. reflexivity.
  - rewrite IH, <- app_assoc. reflexivity.
Qed.

(** ** Image names *)

Lemma nullable_lang (r : regex) : nullable r = true <-> lang r [].
Proof.
  induction r as [| | cl | r1 IH1 r2 IH2 | r1 IH1 r2 IH2 | r1 IH1]; cbn [nullable lang].
  - split; [discriminate | intros []].
  - split; reflexivity.
  - split; [discriminate | intros (c & H & _); discriminate].
  - rewrite andb_true_iff, IH1, IH2. split.
    + intros [H1 H2]. exists [], []. auto.
    + intros (s1 & s2 & E & H1 & H2). symmetry in E.
      apply app_eq_nil in E. destruct E; subst. auto.
  - rewrite orb_true_iff, IH1, IH2. reflexivity.
  - split; [intros _; constructor | reflexivity].
Qed.

Lemma rep_cons (L : list ascii -> Prop) (c : ascii) (s : list ascii) :
  rep L (c :: s) ->
  exists s1 s2, s = s1 ++ s2 /\ L (c :: s1) /\ rep L s2.
Proof.
  intros H. remember (c :: s) as t eqn:E. revert E.
  induction H as [| s1 s2 H1 H2 IH]; intros E; [discriminate |].
  destruct s1 as [| c1 s1].
  - apply IH. exact E.
  - cbn in E. injection E as E1 E2. subst c1 s. exists s1, s2. auto.
Qed.

Lemma deriv_lang (r : regex) :
  forall (c : ascii) (s : list ascii), lang (deriv c r) s <-> lang r (c :: s).
Proof.
  induction r as [| | cl | r1 IH1 r2 IH2 | r1 IH1 r2 IH2 | r1 IH1];
    intros c s; cbn [deriv lang].
  - reflexivity.
  - split; [intros [] | discriminate].
  - destruct (in_class c cl) eqn:E; cbn [lang]; split.
    + intros ->. exists c. auto.
    + intros (c' & H & _). injection H as _ ->. reflexivity.
    + intros [].
    + intros (c' & H & H'). injection H as <- _. congruence.
  - split.
    + intros [(s1 & s2 & -> & H1 & H2) | H].
      * exists (c :: s1), s2. rewrite <- IH1. auto.
      * destruct (nullable r1) eqn:E; [| destruct H].
        exists [], (c :: s). rewrite <- IH2, <- nullable_lang. auto.
    + intros (s1 & s2 & E & H1 & H2). destruct s1 as [| c1 s1].
      * right. apply nullable_lang in H1. rewrite H1.
        cbn in E. subst s2. apply IH2. exact H2.
      * cbn in E. injection E as E1 E2. subst c1 s. left.
        exists s1, s2. rewrite IH1. auto.
  - rewrite IH1, IH2. reflexivity.
  - split.
    + intros (s1 & s2 & -> & H1 & H2).
      apply (rep_app _ (c :: s1) s2); [apply IH1; exact H1 | exact H2].
    + intros H. apply rep_cons in H. destruct H as (s1 & s2 & -> & H1 & H2).
      exists s1, s2. rewrite IH1. auto.
Qed.

Lemma matches_lang (s : string) :
  forall r : regex, matches r s = true <-> lang r (list_ascii_of_string s).
Proof.
  induction s as [| c s IH]; intros r; cbn [matches list_ascii_of_string].
  - apply nullable_lang.
  - rewrite IH. apply deriv_lang.
Qed.

Ltac all_bytes c :=
  destruct c as [[] [] [] [] [] [] [] []]; vm_compute; try reflexivity;
  try discriminate.

Lemma in_class_alnum (c : ascii) : in_class c alnum = is_alnum c.
Proof. all_bytes c. Qed.

Lemma in_class_name (c : ascii) : in_class c nameClass = is_name_char c.
Proof. all_bytes c. Qed.

Lemma in_class_hex (c : ascii) : in_class c hexClass = is_hex c.
Proof. all_bytes c. Qed.

Lemma in_class_tag (c : ascii) :
  in_class c tagClass = true -> is_name_char c = true.
Proof. all_bytes c. Qed.

Lemma is_hex_name (c : ascii) : is_hex c = true -> is_name_char c = true.
Proof. all_bytes c. Qed.

Lemma is_name_image (c : ascii) : is_name_char c = true -> is_image_char c = true.
Proof. unfold is_image_char. intros ->. reflexivity. Qed.

Lemma lang_chr (a : ascii) (s : list ascii) : lang (chr a) s <-> s = [a].
Proof.
  unfold chr. cbn [lang]. unfold in_class. cbn [existsb fst snd].
  split.
  - intros (c & -> & H). rewrite orb_false_r, andb_true_iff in H.
    destruct H as [H1 H2]. apply Nat.leb_le in H1, H2.
    assert (E : nat_of_ascii c = nat_of_ascii a) by lia.
    apply (f_equal ascii_of_nat) in E. rewrite !ascii_nat_embedding in E.
    subst. reflexivity.
  - intros ->. exists a. rewrite Nat.leb_refl. auto.
Qed.

Lemma lang_lit (t : string) :
  forall s : list ascii, lang (lit t) s <-> s = list_ascii_of_string t.
Proof.
  induction t as [| a t IH]; intros s; cbn [lit list_ascii_of_string].
  - reflexivity.
  - change (lang (Seq (chr a) (lit t)) s)
      with (exists s1 s2, s = s1 ++ s2 /\ lang (chr a) s1 /\ lang (lit t) s2).
    split.
    + intros (s1 & s2 & -> & H1 & H2). apply lang_chr in H1. apply IH in H2.
      subst. reflexivity.
    + intros ->. exists [a], (list_ascii_of_string t).
      rewrite lang_chr, IH. auto.
Qed.

Lemma rep_class (cl : list (nat * nat)) (s : list ascii) :
  rep (lang (Class cl)) s <-> forallb (fun c => in_class c cl) s = true.
Proof.
  split.
  - induction 1 as [| s1 s2 (c & -> & H1) H2 IH]; [reflexivity |].
    cbn. rewrite H1, IH. reflexivity.
  - induction s as [| c s IH]; [constructor |].
    cbn [forallb]. rewrite andb_true_iff. intros [H1 H2].
    apply (rep_app _ [c] s); [exists c; auto | apply IH; exact H2].
Qed.

Lemma lang_plus_class (cl : list (nat * nat)) (s : list ascii) :
  lang (plus (Class cl)) s
  <-> s <> [] /\ forallb (fun c => in_class c cl) s = true.
Proof.
  unfold plus.
  change (lang (Seq (Class cl) (Star (Class cl))) s)
    with (exists s1 s2, s = s1 ++ s2 /\ lang (Class cl) s1
                        /\ rep (lang (Class cl)) s2).
  split.
  - intros (s1 & s2 & -> & (c & -> & H1) & H2). apply rep_class in H2.
    split; [discriminate |]. cbn. rewrite H1, H2. reflexivity.
  - intros [Hne H]. destruct s as [| c s]; [congruence |].
    cbn [forallb] in H. apply andb_true_iff in H. destruct H as [H1 H2].
    exists [c], s. rewrite rep_class. split; [reflexivity |].
    split; [exists c; auto | exact H2].
Qed.

Lemma forallb_impl (p q : ascii -> bool) (s : list ascii) :
  (forall c, p c = true -> q c = true) ->
  forallb p s = true -> forallb q s = true.
Proof.
  intros Hpq. rewrite !forallb_forall. auto.
Qed.

Lemma forallb_class (cl : list (nat * nat)) (p : ascii -> bool) (s : list ascii) :
  (forall c, in_class c cl = p c) ->
  forallb (fun c => in_class c cl) s = forallb p s.
Proof.
  intros H. induction s as [| c s IH]; [reflexivity |].
  cbn [forallb]. rewrite H, IH. reflexivity.
Qed.

(** The language of the pattern, on lists of bytes. *)
Lemma validImageRegex_lang (l : list ascii) :
  lang validImageRegex l
  <-> exists (c : ascii) (body digest : list ascii),
        l = c :: body ++ digest
        /\ is_alnum c = true
        /\ forallb is_name_char body = true
        /\ (digest = []
            \/ exists h, digest = list_ascii_of_string "@sha256:" ++ h
                         /\ h <> [] /\ forallb is_hex h = true).
Proof.
  unfold validImageRegex, opt.
  change (lang (Seq (Class alnum)
            (Seq (Star (Class nameClass))
               (Seq (Alt (Seq (chr ":") (plus (Class tagClass))) Eps)
                  (Alt (Seq (lit "@sha256:") (plus (Class hexClass))) Eps)))) l)
    with (exists s1 s2, l = s1 ++ s2
            /\ (exists c, s1 = [c] /\ in_class c alnum = true)
            /\ exists s3 s4, s2 = s3 ++ s4
                 /\ rep (lang (Class nameClass)) s3
                 /\ exists s5 s6, s4 = s5 ++ s6
                      /\ ((exists a b, s5 = a ++ b /\ lang (chr ":") a
                                       /\ lang (plus (Class tagClass)) b)
                          \/ s5 = [])
                      /\ ((exists a b, s6 = a ++ b /\ lang (lit "@sha256:") a
                                       /\ lang (plus (Class hexClass)) b)
                          \/ s6 = [])).
  split.
  - intros (s1 & s2 & -> & (c & -> & Hc) & s3 & s4 & -> & H3 & s5 & s6 & ->
            & H5 & H6).
    exists c, (s3 ++ s5), s6. rewrite in_class_alnum in Hc.
    apply rep_class in H3. rewrite (forallb_class _ _ _ in_class_name) in H3.
    split; [cbn; rewrite app_assoc; reflexivity |].
    split; [exact Hc |]. split.
    + rewrite forallb_app, H3. cbn [andb].
      destruct H5 as [(a & b & -> & Ha & Hb) | ->]; [| reflexivity].
      apply lang_chr in Ha. apply lang_plus_class in Hb. subst a.
      destruct Hb as [_ Hb]. cbn [app forallb].
      apply andb_true_iff. split; [reflexivity |].
      apply (forallb_impl _ _ _ in_class_tag Hb).
    + destruct H6 as [(a & b & -> & Ha & Hb) | ->]; [right | left; reflexivity].
      apply lang_lit in Ha. apply lang_plus_class in Hb. subst a.
      destruct Hb as [Hne Hb]. rewrite (forallb_class _ _ _ in_class_hex) in Hb.
      exists b. auto.
  - intros (c & body & digest & -> & Hc & Hb & Hd).
    exists [c], (body ++ digest). split; [reflexivity |].
    split; [exists c; rewrite in_class_alnum; auto |].
    exists body, digest. split; [reflexivity |].
    split; [apply rep_class; rewrite (forallb_class _ _ _ in_class_name); exact Hb |].
    exists [], digest. split; [reflexivity |]. split; [right; reflexivity |].
    destruct Hd as [-> | (h & -> & Hne & Hh)]; [right; reflexivity | left].
    exists (list_ascii_of_string "@sha256:"), h. split; [reflexivity |].
    split; [apply lang_lit; reflexivity |].
    apply lang_plus_class. rewrite (forallb_class _ _ _ in_class_hex). auto.
Qed.

Lemma list_of_append (a b : string) :
  list_ascii_of_string (a ++ b) = list_ascii_of_string a ++ list_ascii_of_string b.
Proof.
  induction a as [| c a IH]; [reflexivity |].
  cbn. rewrite IH. reflexivity.
Qed.

Lemma string_of_app (a b : list ascii) :
  string_of_list_ascii (a ++ b)
  = (string_of_list_ascii a ++ string_of_list_ascii b)%string.
Proof.
  induction a as [| c a IH]; [reflexivity |].
  cbn. rewrite IH. reflexivity.
Qed.

Lemma list_of_string_nil (s : string) :
  list_ascii_of_string s = [] -> s = ""%string.
Proof. destruct s; [reflexivity | discriminate]. Qed.

(** The pattern accepts exactly the names of the shape. *)
Lemma matches_shape (image : string) :
  matches validImageRegex image = true <-> image_shape image.
Proof.
  rewrite matches_lang, validImageRegex_lang. unfold image_shape, all_chars.
  split.
  - intros (c & body & digest & E & Hc & Hb & Hd).
    exists c, (string_of_list_ascii body), (string_of_list_ascii digest).
    rewrite !list_ascii_of_string_of_list_ascii.
    split.
    + rewrite <- (string_of_list_ascii_of_string image), E. cbn.
      rewrite string_of_app. reflexivity.
    + split; [exact Hc |]. split; [exact Hb |].
      destruct Hd as [-> | (h & -> & Hne & Hh)]; [left; reflexivity | right].
      exists (string_of_list_ascii h).
      rewrite list_ascii_of_string_of_list_ascii, string_of_app.
      rewrite string_of_list_ascii_of_string.
      split; [reflexivity |]. split; [| exact Hh].
      intros E'. apply Hne. destruct h; [reflexivity | discriminate].
  - intros (c & body & digest & -> & Hc & Hb & Hd).
    exists c, (list_ascii_of_string body), (list_ascii_of_string digest).
    split; [cbn; rewrite list_of_append; reflexivity |].
    split; [exact Hc |]. split; [exact Hb |].
    destruct Hd as [-> | (h & -> & Hne & Hh)]; [left; reflexivity | right].
    exists (list_ascii_of_string h). rewrite list_of_append.
    split; [reflexivity |]. split; [| exact Hh].
    intros E'. apply Hne, list_of_string_nil, E'.
Qed.

Lemma shape_chars (image : string) :
  image_shape image -> all_chars is_image_char image = true.
Proof.
  unfold image_shape, all_chars.
  intros (c & body & digest & -> & Hc & Hb & Hd).
  cbn [list_ascii_of_string forallb]. rewrite list_of_append, forallb_app.
  apply andb_true_iff. split.
  { unfold is_image_char, is_name_char. rewrite Hc. reflexivity. }
  apply andb_true_iff. split.
  { apply (forallb_impl _ _ _ is_name_image Hb). }
  destruct Hd as [-> | (h & -> & _ & Hh)]; [reflexivity |].
  rewrite list_of_append, forallb_app.
  apply andb_true_iff. split; [vm_compute; reflexivity |].
  apply (forallb_impl is_hex); [| exact Hh].
  intros a Ha. apply is_name_image, is_hex_name, Ha.
Qed.

Lemma contains_char (d : ascii) (s : string) :
  strings_Contains s (String d "") = existsb (Ascii.eqb d) (list_ascii_of_string s).
Proof.
  induction s as [| c s IH]; [reflexivity |].
  cbn [strings_Contains list_ascii_of_string existsb String.prefix].
  rewrite IH. destruct (ascii_dec d c) as [-> | Hne].
  - rewrite Ascii.eqb_refl. destruct s; reflexivity.
  - apply Ascii.eqb_neq in Hne. rewrite Hne. reflexivity.
Qed.

Lemma absent_char (d : ascii) (s : string) :
  is_image_char d = false ->
  all_chars is_image_char s = true ->
  strings_Contains s (String d "") = false.
Proof.
  intros Hd Hs. rewrite contains_char.
  destruct (existsb (Ascii.eqb d) (list_ascii_of_string s)) eqn:E; [| reflexivity].
  apply existsb_exists in E. destruct E as (c & Hin & E).
  apply Ascii.eqb_eq in E. subst c.
  unfold all_chars in Hs. rewrite forallb_forall in Hs.
  rewrite (Hs d Hin) in Hd. discriminate.
Qed.

(** A name of image bytes only passes the metacharacter loop. *)
Lemma dangerous_loop_passes (image : string) :
  all_chars is_image_char image = true ->
  dangerous_loop image dangerousChars = None.
Proof.
  intros H. unfold dangerousChars. cbn [dangerous_loop].
  repeat (rewrite (absent_char _ image); [| vm_compute; reflexivity | exact H]).
  reflexivity.
Qed.

Lemma validateImageName_shape (image : string) :
  validateImageName image = None <-> image_shape image.
Proof.
  unfold validateImageName. split.
  - destruct (String.eqb image ""); [discriminate |].
    destruct (dangerous_loop image dangerousChars); [discriminate |].
    destruct (matches validImageRegex image) eqn:E; [| discriminate].
    intros _. apply matches_shape, E.
  - intros H. pose proof (shape_chars _ H) as Hc.
    rewrite (dangerous_loop_passes _ Hc).
    apply matches_shape in H as Hm. rewrite Hm.
    destruct H as (c & body & digest & -> & _). reflexivity.
Qed.

(** X13.  Which image names are accepted: [validateImageName] returns no
    error exactly for a letter or digit, followed by letters, digits and
    [. _ - / :], followed possibly by [@sha256:] and one or more lower-case
    hexadecimal digits. *)
Theorem accepted_image_names :
  forall image : string, validateImageName image = None <-> image_shape image.
Proof.
  exact validateImageName_shape.
Qed.

(** X14.  An accepted image name holds only letters, digits and the bytes
    [. _ - / : @]: no blank, quote, control byte or shell metacharacter, and
    it does not start with a dash. *)
Theorem accepted_names_hold_no_shell_bytes :
  forall image : string,
    validateImageName image = None ->
    all_chars is_image_char image = true
    /\ exists (c : ascii) (rest : string),
         image = String c rest /\ is_alnum c = true.
Proof.
  intros image H. apply validateImageName_shape in H.
  split; [apply shape_chars, H |].
  destruct H as (c & body & digest & -> & Hc & _).
  exists c, (body ++ digest)%string. auto.
Qed.

Lemma accepted_names_witness :
  validateImageName "docker.io/library/nginx:1.21" = None
  /\ all_chars is_image_char "docker.io/library/nginx:1.21" = true.
Proof.
  split; [vm_compute; reflexivity |].
  destruct (accepted_names_hold_no_shell_bytes "docker.io/library/nginx:1.21")
    as [H _]; [vm_compute; reflexivity | exact H].
Defined.

(** X15.  The metacharacter list of [validateImageName] decides the message
    only: a name that holds a listed character is outside the pattern
    too. *)
Theorem listed_characters_fail_the_pattern :
  forall (image err : string),
    dangerous_loop image dangerousChars = Some err ->
    matches validImageRegex image = false.
Proof.
  intros image err H.
  destruct (matches validImageRegex image) eqn:E; [| reflexivity].
  apply matches_shape, shape_chars, dangerous_loop_passes in E.
  congruence.
Qed.

Lemma listed_characters_witness :
  dangerous_loop "alpine; rm -rf /" dangerousChars
  = Some "image name contains invalid character: ;"%string
  /\ matches validImageRegex "alpine; rm -rf /" = false.
Proof.
  split; [vm_compute; reflexivity |].
  apply (listed_characters_fail_the_pattern "alpine; rm -rf /"
           "image name contains invalid character: ;").
  vm_compute. reflexivity.
Defined.

(** X16.  Grype runs on names of the accepted shape and on no other: for a
    name of the shape, [GetVulnerabilities] of a scanner source is what the
    command gives (its output parsed, or its error wrapped); for any other
    name it is the validation error, prefixed with [invalid image name: ],
    whatever the command, the JSON decoder and the file system would do. *)
Theorem grype_runs_on_accepted_names_only :
  forall image : string,
    (image_shape image
     /\ forall env : GrypeEnv,
          @ScannerSource_GetVulnerabilities env image
          = match @exec_grype env image with
            | cmdExitError stderr => inr ("grype failed: " ++ stderr)%string
            | cmdOtherError err => inr ("failed to run grype: " ++ err)%string
            | cmdOutput output => @parseGrypeOutput env output
            end)
    \/ (~ image_shape image
        /\ exists err : string,
             validateImageName image = Some err
             /\ forall env : GrypeEnv,
                  @ScannerSource_GetVulnerabilities env image
                  = inr ("invalid image name: " ++ err)%string).
Proof.
  intros image. destruct (validateImageName image) as [err |] eqn:E.
  - right. split.
    + intros H. apply validateImageName_shape in H. congruence.
    + exists err. split; [reflexivity |]. intros env.
      unfold ScannerSource_GetVulnerabilities. rewrite E. reflexivity.
  - left. split; [apply validateImageName_shape, E |]. intros env.
    unfold ScannerSource_GetVulnerabilities. rewrite E. reflexivity.
Qed.

(** X17.  The score the parser gives a record is the highest of its CVSS
    entries, from [+0]: it is never NaN and never negative; no entry with a
    number for a score exceeds it; when it is positive it is the score of one
    of the entries, and otherwise it is [+0] and no entry has a positive
    score. *)
Theorem parsed_score_is_the_highest :
  forall mt : Match,
    F64.is_nan (CVSS (vulnerabilityOf mt)) = false
    /\ F64.ltb (CVSS (vulnerabilityOf mt)) K.f0 = false
    /\ (forall cvss,
          In cvss (vi_CVSS (match_Vulnerability mt)) ->
          F64.is_nan (entryScore cvss) = false ->
          F64.leb (entryScore cvss) (CVSS (vulnerabilityOf mt)) = true)
    /\ (F64.gtb (CVSS (vulnerabilityOf mt)) K.f0 = true ->
        exists cvss,
          In cvss (vi_CVSS (match_Vulnerability mt))
          /\ CVSS (vulnerabilityOf mt) = entryScore cvss)
    /\ (F64.gtb (CVSS (vulnerabilityOf mt)) K.f0 = false ->
        CVSS (vulnerabilityOf mt) = S754_zero false
        /\ forall cvss,
             In cvss (vi_CVSS (match_Vulnerability mt)) ->
             F64.gtb (entryScore cvss) K.f0 = false).
Proof.
  intros mt. cbn [CVSS vulnerabilityOf]. rewrite f0_zero.
  set (entries := vi_CVSS (match_Vulnerability mt)).
  destruct (highestScore_inv entries (S754_zero false) (or_introl eq_refl))
    as (Hok & _ & Hfrom & Hmax).
  set (s := highestScore (S754_zero false) entries) in *.
  split; [apply score_ok_number, Hok |].
  split.
  { destruct (F64.ltb s (S754_zero false)) eqn:E; [| reflexivity].
    pose proof (score_ok_leb _ Hok) as Hle.
    pose proof (leb_ltb_trans _ _ _ Hle E) as Hlt.
    vm_compute in Hlt. discriminate. }
  split; [exact Hmax |].
  split.
  - intros Hpos. destruct Hfrom as [E | H]; [| exact H].
    rewrite E in Hpos. vm_compute in Hpos. discriminate.
  - intros Hz. destruct Hok as [E | Hpos]; [| congruence].
    split; [exact E |].
    intros cvss Hin. destruct (F64.gtb (entryScore cvss) (S754_zero false)) eqn:G;
      [| reflexivity].
    destruct (ltb_numbers _ _ G) as [_ Hn].
    pose proof (Hmax cvss Hin Hn) as Hle. rewrite E in Hle.
    rewrite (leb_zero_not_gtb _ Hle) in G. discriminate.
Qed.

Lemma parseGrypeOutput_ok {env : GrypeEnv} (data : string) (output : Output) :
  json_Unmarshal data = inl output ->
  parseGrypeOutput data = inl (map vulnerabilityOf (Matches output)).
Proof.
  intros H. unfold parseGrypeOutput. rewrite H, parse_loop_map. reflexivity.
Qed.

(** X18.  From a report file to the board: when the file cannot be read or
    decoded the game ends with the error as its message and quits; otherwise
    play starts with one obstacle per match of the report, in order, carrying
    the match's id, severity label and highest score, and the game is the
    decorative one exactly when the report has no match. *)
Theorem report_file_to_board :
  forall (env : GrypeEnv) (RT : Runtime) (t0 now : Z) (path : string),
    let m := NewModel t0 (FileSource path) in
    let m' := fst (Update now m (loadVulnerabilities m)) in
    let c' := snd (Update now m (loadVulnerabilities m)) in
    match os_ReadFile path with
    | inr err =>
        state m' = stateGameOver
        /\ collisionMsg m'
           = ("Failed to load vulnerabilities: failed to read file: " ++ err)%string
        /\ c' = cmdQuit
    | inl data =>
        match json_Unmarshal data with
        | inr err =>
            state m' = stateGameOver
            /\ collisionMsg m'
               = ("Failed to load vulnerabilities: failed to parse JSON: "
                  ++ err)%string
            /\ c' = cmdQuit
        | inl output =>
            state m' = statePlaying
            /\ c' = cmdTick
            /\ loadedVulns m' = map vulnerabilityOf (Matches output)
            /\ totalVulns m' = Z.of_nat (List.length (Matches output))
            /\ List.length (obstacles m') = List.length (Matches output)
            /\ (forall (i : nat) (mt : Match),
                  nth_error (Matches output) i = Some mt ->
                  exists obs : obstacle,
                    nth_error (obstacles m') i = Some obs
                    /\ cveID obs = vi_ID (match_Vulnerability mt)
                    /\ severityLabel obs = vi_Severity (match_Vulnerability mt)
                    /\ severity obs = CVSS (vulnerabilityOf mt))
            /\ (isZeroVulnGame m' = true <-> Matches output = [])
        end
    end.
Proof.
  intros env RT t0 now path m m' c'. subst m' c'.
  unfold loadVulnerabilities.
  change (GetVulnerabilities (vulnSource m))
    with (FileSource_GetVulnerabilities path).
  unfold FileSource_GetVulnerabilities.
  destruct (os_ReadFile path) as [data | err].
  2: { cbn [Update fst snd]. repeat split. }
  unfold parseGrypeOutput.
  destruct (json_Unmarshal data) as [output | err].
  2: { cbn [Update fst snd]. repeat split. }
  rewrite parse_loop_map. cbn [app Update fst snd].
  set (vulns := map vulnerabilityOf (Matches output)).
  set (m1 := set_loadedVulns vulns m).
  destruct (startGame_more now m1 vulns) as (_ & Ht & _ & Hz & Hnz).
  assert (Hlen : List.length vulns = List.length (Matches output))
    by apply length_map.
  split; [apply startGame_state |]. split; [reflexivity |].
  split; [rewrite startGame_loadedVulns; reflexivity |].
  split; [rewrite Ht, Hlen; reflexivity |].
  split; [rewrite startGame_obstacles, obstaclesFrom_length; exact Hlen |].
  split.
  - intros i mt Hi.
    assert (Hv : nth_error vulns i = Some (vulnerabilityOf mt)).
    { unfold vulns. rewrite nth_error_map, Hi. reflexivity. }
    rewrite startGame_obstacles.
    rewrite (obstaclesFrom_nth_error _ _ _ _ 0 i _ Hv).
    destruct (obstacleAt_fields startLanes (m_width m1)
                (Z.of_nat (List.length vulns)) i (vulnerabilityOf mt)
                startLanes_nonempty)
      as (ln & _ & _ & Hid & Hs & Hlab & _).
    eexists. split; [reflexivity |].
    cbn [Z.add]. rewrite Hid, Hlab, Hs. repeat split.
  - destruct (Matches output) as [| mt rest] eqn:E.
    + split; [reflexivity |]. intros _. apply Hz. reflexivity.
    + split; [| discriminate].
      destruct Hnz as [Hnz _]; [discriminate |].
      rewrite Hnz. discriminate.
Qed.

(** ** The board of a frame *)























(** ** The message of a hit *)

Lemma obstacleAt_source {RT : Runtime} (lanes : list lane) (w n i : Z)
    (vuln : Vulnerability) :
  cveID (obstacleAt lanes w n i vuln) = ID vuln
  /\ severity (obstacleAt lanes w n i vuln) = CVSS vuln
  /\ severityLabel (obstacleAt lanes w n i vuln) = Severity vuln.
Proof.
  unfold obstacleAt. destruct (getObstacleProperties vuln) as [[wd sm] ty].
  repeat split.
Qed.

Lemma thresholds_positive :
  F64.ltb K.f0 K.f9_0 = true /\ F64.ltb K.f0 K.f7_0 = true
  /\ F64.ltb K.f0 K.f4_0 = true.
Proof. repeat split; vm_compute; reflexivity. Qed.

Lemma not_positive_below (s t : float64) :
  F64.ltb K.f0 t = true -> F64.gtb s K.f0 = false -> F64.geb s t = false.
Proof.
  intros Ht Hs. destruct (F64.geb s t) eqn:E; [| reflexivity].
  rewrite (geb_positive s t Ht E) in Hs. discriminate.
Qed.

(** X20.  When a vulnerability has no severity label, the game-over message
    of its obstacle names the class the obstacle was given: Critical for a
    boss, High for a truck, Medium or Low for a car; the score is shown
    exactly when it is above zero. *)
Theorem message_names_the_class_without_label :
  forall (RT : Runtime) (lanes : list lane) (w n i : Z) (vuln : Vulnerability),
    Severity vuln = ""%string ->
    exists word : string,
      Suffix (FormatCollisionMessageParts (obstacleAt lanes w n i vuln))
      = (if F64.gtb (CVSS vuln) K.f0
         then " (" ++ word ++ ", CVSS " ++ fmt_f1 (CVSS vuln) ++ "). Game over!"
         else " (" ++ word ++ "). Game over!")%string
      /\ match snd (getObstacleProperties vuln) with
         | obstacleTypeBoss => word = "Critical"%string
         | obstacleTypeTruck => word = "High"%string
         | obstacleTypeCar => word = "Medium"%string \/ word = "Low"%string
         end.
Proof.
  intros RT lanes w n i vuln Hlabel.
  destruct (obstacleAt_source lanes w n i vuln) as (_ & Hs & Hl).
  unfold FormatCollisionMessageParts. cbv zeta. cbn [Suffix].
  rewrite Hs, Hl, Hlabel. cbn [String.eqb].
  unfold getObstacleProperties. rewrite Hlabel.
  destruct thresholds_positive as (T9 & T7 & T4).
  destruct (F64.gtb (CVSS vuln) K.f0) eqn:G.
  - destruct (F64.geb (CVSS vuln) K.f9_0); [eexists; split; reflexivity |].
    destruct (F64.geb (CVSS vuln) K.f7_0); [eexists; split; reflexivity |].
    destruct (F64.geb (CVSS vuln) K.f4_0); eexists; (split; [reflexivity |]);
      cbn [snd]; auto.
  - rewrite (not_positive_below _ _ T9 G), (not_positive_below _ _ T7 G),
      (not_positive_below _ _ T4 G).
    eexists. split; [reflexivity |]. cbn. auto.
Qed.

Lemma message_class_witness :
  exists word : string,
    Suffix (@FormatCollisionMessageParts sample_runtime
              (@obstacleAt sample_runtime startLanes 80 1 0 unlabelled_vuln))
    = (if F64.gtb (CVSS unlabelled_vuln) K.f0
       then " (" ++ word ++ ", CVSS "
            ++ @fmt_f1 sample_runtime (CVSS unlabelled_vuln) ++ "). Game over!"
       else " (" ++ word ++ "). Game over!")%string
    /\ match snd (getObstacleProperties unlabelled_vuln) with
       | obstacleTypeBoss => word = "Critical"%string
       | obstacleTypeTruck => word = "High"%string
       | obstacleTypeCar => word = "Medium"%string \/ word = "Low"%string
       end.
Proof.
  apply (message_names_the_class_without_label sample_runtime startLanes 80 1 0
           unlabelled_vuln).
  reflexivity.
Defined.

(** ** A game without vulnerabilities *)

Section Peaceful.

Context `{RT : Runtime}.

Lemma peaceful_no_obstacles (m : Model) : peaceful m -> obstacles m = [].
Proof.
  intros ((_ & _ & _ & _ & Hlen & _) & Hv & _).
  rewrite Hv in Hlen. destruct (obstacles m); [reflexivity | discriminate].
Qed.

Lemma play_msg_ok (msg : Msg) : play_msg msg -> msg_ok msg.
Proof. destruct msg; cbn; tauto. Qed.

Lemma restart_peaceful (now : Z) (m : Model) :
  peaceful m -> peaceful (fst (restartGame now m)).
Proof.
  intros (Hinv & Hv & Hz & Hs).
  rewrite restartGame_eq. cbn [fst].
  destruct (startGame_more now (resetModel now m) (loadedVulns m))
    as (_ & _ & _ & Hzero & _).
  split; [| split; [| split]].
  - destruct Hinv as (HW & Hh & _).
    apply startGame_session; try assumption; reflexivity.
  - rewrite startGame_loadedVulns. exact Hv.
  - apply Hzero. exact Hv.
  - left. apply startGame_state.
Qed.

Lemma Update_peaceful (now : Z) (m : Model) (msg : Msg) :
  play_msg msg -> peaceful m -> peaceful (fst (Update now m msg)).
Proof.
  intros Hmsg Hp.
  pose proof (peaceful_no_obstacles m Hp) as Hobs.
  pose proof Hp as (Hinv & Hv & Hz & Hs).
  pose proof (Update_session now m msg (play_msg_ok msg Hmsg) Hinv) as Hinv'.
  split; [exact Hinv' |]. clear Hinv'.
  destruct msg as [key | w h | vulns | err | |]; cbn [Update play_msg] in *;
    try contradiction.
  - (* a key *)
    destruct Hs as [Hs | Hs].
    + destruct Hinv as (HW & _ & Hx & Hy & _).
      destruct (handleKeyPress_playing_frame now m key Hs HW Hx Hy)
        as (_ & Ev & _ & _ & _ & _ & Ez & _ & Est & _).
      rewrite Ev, Ez. auto.
    + unfold handleKeyPress. rewrite Hs.
      destruct (key_in key ["q"; "esc"; "ctrl+c"]%string); [cbn [fst]; auto |].
      destruct (key_in key ["enter"; " "]%string); [| cbn [fst]; auto].
      apply (restart_peaceful now m Hp).
  - (* a resize *)
    destruct ((0 <? w) && (0 <? h)); cbn [fst]; auto.
  - (* a tick *)
    destruct Hs as [Hs | Hs]; rewrite Hs; cbn [fst]; [| auto].
    destruct (updateGame_frame now m)
      as (_ & _ & _ & _ & Ev & _ & _ & Ez & _ & Eo & _).
    rewrite Ev, Ez. split; [exact Hv | split; [exact Hz |]].
    pose proof (updateGame_first_hit now m) as Hhit.
    rewrite Hobs in Eo.
    destruct (obstacles (updateGame now m)); [| discriminate].
    cbn [find] in Hhit. destruct Hhit as [-> _]. auto.
  - (* a foreign message *)
    cbn [fst]. auto.
Qed.

Lemma run_peaceful (events : list (Z * Msg)) :
  forall m : Model,
    Forall (fun ev => play_msg (snd ev)) events ->
    peaceful m -> peaceful (run m events).
Proof.
  induction events as [| [now msg] rest IH]; intros m Hev Hp; [exact Hp |].
  inversion Hev as [| ? ? Hok Hrest]; subst. cbn [run].
  apply IH; [exact Hrest |]. apply Update_peaceful; assumption.
Qed.

End Peaceful.

(** X21.  A game without vulnerabilities cannot be lost: once an empty list
    was loaded, whatever keys, resizes and ticks follow, and through any
    number of restarts, the game is Playing or won, it stays the decorative
    one and no obstacle ever appears. *)
Theorem zero_vulnerability_game_cannot_be_lost :
  forall (RT : Runtime) (t0 now : Z) (src : VulnerabilitySource)
         (events : list (Z * Msg)),
    Forall (fun ev => play_msg (snd ev)) events ->
    let m := run (NewModel t0 src)
               ((now, vulnerabilitiesLoadedMsg []) :: events) in
    (state m = statePlaying \/ state m = stateVictory)
    /\ obstacles m = []
    /\ isZeroVulnGame m = true.
Proof.
  intros RT t0 now src events Hev m.
  assert (Hp : peaceful m).
  { subst m. cbn [run Update fst]. apply run_peaceful; [exact Hev |].
    set (m0 := set_loadedVulns [] (NewModel t0 src)).
    destruct (startGame_more now m0 []) as (_ & _ & _ & Hzero & _).
    split; [| split; [| split]].
    - apply startGame_session; try reflexivity; cbn; lia.
    - rewrite startGame_loadedVulns. reflexivity.
    - apply Hzero. reflexivity.
    - left. apply startGame_state. }
  pose proof (peaceful_no_obstacles m Hp) as Hobs.
  destruct Hp as (_ & _ & Hz & Hs). auto.
Qed.

Lemma zero_vulnerability_witness :
  state (@run sample_runtime (NewModel 0 sample_source)
           [(0, vulnerabilitiesLoadedMsg []);
            (1000, KeyMsg "up");
            (33000000, tickMsg);
            (40000000, WindowSizeMsg 100 30);
            (66000000, tickMsg)]) = statePlaying
  \/ state (@run sample_runtime (NewModel 0 sample_source)
              [(0, vulnerabilitiesLoadedMsg []);
               (1000, KeyMsg "up");
               (33000000, tickMsg);
               (40000000, WindowSizeMsg 100 30);
               (66000000, tickMsg)]) = stateVictory.
Proof.
  destruct (zero_vulnerability_game_cannot_be_lost sample_runtime 0 0
              sample_source
              [(1000, KeyMsg "up");
               (33000000, tickMsg);
               (40000000, WindowSizeMsg 100 30);
               (66000000, tickMsg)]) as [H _].
  - repeat constructor; vm_compute; discriminate.
  - exact H.
Defined.

(** ** Rounding to binary64 *)




























Lemma pow2_53 : (pow2 53 == inject_Z 9007199254740992)%Q.
Proof. reflexivity. Qed.









(** ** The operations of the physics step, with their rounding errors *)






















(** *** The tick, in rationals *)









Section TickError.

Context `{RT : Runtime}.

(** [keeps_course] tells the ticks that wrap from those that do not: when it
    holds the obstacle is left at the sum the tick computed, and when it
    fails the obstacle is teleported to one of the two edges. *)
Lemma keeps_course_spec (W : Z) (delta : float64) (o : obstacle) :
  (keeps_course W delta o = true ->
   floatX (moveObstacle W delta o)
   = F64.add (floatX o) (F64.mul (F64.mul (speed o) delta) K.f30_0)
   /\ x (pos (moveObstacle W delta o)) = to_int (floatX (moveObstacle W delta o)))
  /\ (keeps_course W delta o = false ->
      floatX (moveObstacle W delta o)
      = F64.of_int (x (pos (moveObstacle W delta o)))
      /\ (x (pos (moveObstacle W delta o)) = GoInt.add W 5
          \/ x (pos (moveObstacle W delta o))
             = GoInt.sub (GoInt.neg (width o)) 5)).
Proof.
  unfold keeps_course, moveObstacle. cbv zeta.
  set (fx := F64.add (floatX o) (F64.mul (F64.mul (speed o) delta) K.f30_0)).
  destruct (to_int fx <? GoInt.sub (GoInt.neg (width o)) 5);
    [| destruct (GoInt.add W 5 <? to_int fx)];
    cbn [negb andb set_obstacle_x floatX pos x];
    split; intros E; try discriminate E; auto.
Qed.







End TickError.



